(** * Swagger reconciliation scripts of backend/docs and backend/scripts

    A shallow embedding of the document transformations performed by the
    maintenance scripts (merge, prefix rewrite, prune, tag repair) and of the
    backup/overwrite discipline of the runs that the properties below are
    about.

    Python dictionaries keep insertion order, [json.load] yields the keys in
    file order and [json.dump] writes them back in that order; the prefix
    rewrite depends on that order when two paths end on one key.  A dictionary
    is therefore an ordered association list; the Python [set] objects the
    scripts build ([existing_methods], [conflicting_methods], ...) have no
    order and are [gset]s; the files on disk are a [gmap] from file name to
    content. *)

From Stdlib Require Import Strings.String Strings.Ascii.
From stdpp Require Import gmap strings list fin_maps.

Set Warnings "-clear-no-such-hyp".

Local Open Scope string_scope.
Local Open Scope list_scope.
Local Open Scope stdpp_scope.

(** ** Strings as the scripts use them *)

(** [c.upper()] on an ASCII letter; every other character is left as it is
    (the scripts only compare with the ASCII names GET, PUT, POST). *)
Definition upper_ascii (c : ascii) : ascii :=
  let n := nat_of_ascii c in
  if (97 <=? n)%nat && (n <=? 122)%nat then ascii_of_nat (n - 32) else c.

(** [s.upper()] on a string of ASCII characters, which the method keys of a
    Swagger document are (get, put, post, ...): there it is Python's
    [str.upper].  A character outside ASCII is left as it is, whereas
    [str.upper] also maps some of those (U+017F, the long s, to S); a
    property that depends on which keys have an allowed upper-case name is
    stated for ASCII keys, see [ascii_only]. *)
Fixpoint upper (s : string) : string :=
  match s with
  | EmptyString => EmptyString
  | String c s' => String (upper_ascii c) (upper s')
  end.

(** Every character of [s] is an ASCII character. *)
Definition ascii_only (s : string) : Prop :=
  Forall (λ c, (nat_of_ascii c < 128)%nat) (list_ascii_of_string s).

(** [s.startswith(p)] *)
Definition startswith (s p : string) : bool := String.prefix p s.

(** [sub in s] on strings *)
Definition contains (sub s : string) : bool :=
  match String.index 0 sub s with
  | Some _ => true
  | None => false
  end.

(** [s.replace(old, new, 1)]: only the first occurrence of [old], searched
    from the left, is replaced. *)
Definition replace_first (old new s : string) : string :=
  match String.index 0 old s with
  | Some i =>
      String.substring 0 i s +:+ new +:+
      String.substring (i + String.length old)
                       (String.length s - (i + String.length old)) s
  | None => s
  end.

(** [sep.join(l)] *)
Definition join (sep : string) (l : list string) : string := String.concat sep l.

(** ** Dictionaries *)

(** An insertion-ordered dictionary with string keys. *)
Abbreviation dict V := (list (string * V)).

Section dict_ops.
Context {V : Type}.

(** [d.get(k)]: the entry of [k], the first one from the left. *)
Fixpoint dict_get (k : string) (d : dict V) : option V :=
  match d with
  | [] => None
  | (k', v) :: d' => if decide (k' = k) then Some v else dict_get k d'
  end.

(** [k in d] *)
Definition dict_has (k : string) (d : dict V) : bool :=
  match dict_get k d with
  | Some _ => true
  | None => false
  end.

(** [d[k] = v]: an existing key keeps its place and takes the new value, a
    new key goes to the end. *)
Fixpoint dict_set (k : string) (v : V) (d : dict V) : dict V :=
  match d with
  | [] => [(k, v)]
  | (k', v') :: d' =>
      if decide (k' = k) then (k', v) :: d' else (k', v') :: dict_set k v d'
  end.

(** [del d[k]] for a key that is present (the scripts test [k in d]
    first). *)
Definition dict_del (k : string) (d : dict V) : dict V :=
  filter (λ kv, kv.1 ≠ k) d.

(** [list(d.keys())] *)
Definition keys (d : dict V) : list string := d.*1.

(** Keys are unique in every dictionary Python builds. *)
Definition dict_wf (d : dict V) : Prop := NoDup (keys d).
End dict_ops.


(** ** The document *)

(** JSON that no script looks into, kept as the text it serialises to. *)
Definition opaque := string.

(** The value stored under a method key of a path item.  The scripts that
    read it test [isinstance(method_data, dict)] first: an operation object
    is split into its ['tags'] entry (absent, or a list of tag names) and all
    its other entries; anything else (a path-level [parameters] list, say)
    is opaque. *)
Inductive opval :=
| OpDict (op_tags : option (list string)) (op_rest : opaque)
| OpOther (v : opaque).

(** [paths[p]]: method name to operation. *)
Abbreviation pathitem := (dict opval).

(** An element of the top-level ['tags'] list: an object, with its ['name']
    entry if it has one and its other entries (the description), or some
    other JSON value. *)
Inductive tagval :=
| TagDict (tag_name : option string) (tag_rest : opaque)
| TagOther (v : opaque).

(** [swagger_data['info']] *)
Record info_t := {
  description : option string;
  info_rest : opaque
}.

(** The loaded [swagger_data]; a field is [None] when its key is absent. *)
Record document := {
  doc_paths : option (dict pathitem);
  doc_info : option info_t;
  doc_tags : option (list tagval);
  doc_definitions : option (dict opaque);
  doc_rest : opaque
}.

(** [not swagger_data]: the loaded object has no key at all. *)
Definition doc_falsy (d : document) : bool :=
  match doc_paths d, doc_info d, doc_tags d, doc_definitions d with
  | None, None, None, None => bool_decide (doc_rest d = "")
  | _, _, _, _ => false
  end.

Definition set_paths (ps : option (dict pathitem)) (d : document) : document :=
  {| doc_paths := ps; doc_info := doc_info d; doc_tags := doc_tags d;
     doc_definitions := doc_definitions d; doc_rest := doc_rest d |}.

(** ** Merge: merge_swagger_endpoints.py and add_assets_settings.py *)

(** One entry of [conflicts]: the path and the set [conflicting_methods].
    The scripts store the line [f"{path}: {', '.join(conflicting_methods)}"],
    in which the methods come in the iteration order of a Python set. *)
Definition conflict : Type := string * gset string.

Definition conflict_line (c : conflict) : string :=
  c.1 +:+ ": " +:+ join ", " (elements c.2).

Record merge_state := {
  m_paths : dict pathitem;        (* swagger_data['paths'] *)
  conflicts : list conflict;
  merged_count : nat
}.

(** The inner loop of the conflict branch:
    [if method not in existing_methods: paths[path][method] = method_data],
    on the path item and the number of methods stored. *)
Definition add_new_method (existing_methods : gset string)
    (acc : pathitem * nat) (md : string * opval) : pathitem * nat :=
  if decide (md.1 ∉ existing_methods)
  then (dict_set md.1 md.2 acc.1, S acc.2) else acc.

Definition add_new_methods (existing_methods : gset string)
    (methods item : pathitem) : pathitem * nat :=
  fold_left (add_new_method existing_methods) methods (item, 0).

(** The inner loop of the branch without conflict: every method is stored. *)
Definition add_method (acc : pathitem * nat) (md : string * opval) : pathitem * nat :=
  (dict_set md.1 md.2 acc.1, S acc.2).

Definition add_all_methods (methods item : pathitem) : pathitem * nat :=
  fold_left add_method methods (item, 0).

(** The body of [for path, methods in additional_data['paths'].items()]. *)
Definition merge_path (st : merge_state) (entry : string * pathitem) : merge_state :=
  let path := entry.1 in
  let methods := entry.2 in
  match dict_get path (m_paths st) with
  | Some item =>
      let existing_methods : gset string := list_to_set (keys item) in
      let new_methods : gset string := list_to_set (keys methods) in
      let conflicting_methods := existing_methods ∩ new_methods in
      if decide (conflicting_methods ≠ ∅) then
        let r := add_new_methods existing_methods methods item in
        {| m_paths := dict_set path r.1 (m_paths st);
           conflicts := conflicts st ++ [(path, conflicting_methods)];
           merged_count := merged_count st + r.2 |}
      else
        let r := add_all_methods methods item in
        {| m_paths := dict_set path r.1 (m_paths st);
           conflicts := conflicts st;
           merged_count := merged_count st + r.2 |}
  | None =>
      {| m_paths := dict_set path methods (m_paths st);
         conflicts := conflicts st;
         merged_count := merged_count st + length methods |}
  end.

(** The merge loop, the same statement for statement in
    [merge_swagger_endpoints] (lines 89-115) and [add_assets_settings]
    (lines 88-118, where the counter is called [added_count]). *)
Definition merge_paths (base patch : dict pathitem) : merge_state :=
  fold_left merge_path patch
    {| m_paths := base; conflicts := []; merged_count := 0 |}.

Definition add_assets_settings_paths := merge_paths.

(** [(p, m)] is reported: some entry of [conflicts] is for [p] and lists [m]. *)
Definition conflict_at (cs : list conflict) (p m : string) : Prop :=
  ∃ ms, (p, ms) ∈ cs ∧ m ∈ ms.

(** The info block of [merge_swagger_endpoints] (lines 117-124). *)
Definition crud_marker : string := "dengan fitur lengkap CRUD".
Definition crud_note : string :=
  " Termasuk endpoint CRUD lengkap untuk akun, produk, aset, kontak, user, dan pengaturan sistem.".

Definition update_info (i : option info_t) : option info_t :=
  match i with
  | Some inf =>
      match description inf with
      | Some d =>
          if contains crud_marker d then i
          else Some {| description := Some (d +:+ crud_note);
                       info_rest := info_rest inf |}
      | None => i
      end
  | None => None
  end.

(** [core_tags] of [merge_swagger_endpoints]: name and description. *)
Definition core_tags : list (string * string) :=
  [ ("Accounts", "Chart of accounts management - Manajemen bagan akun (COA)");
    ("Products", "Product and inventory management - Manajemen produk dan inventori");
    ("Assets", "Fixed assets and depreciation management - Manajemen aset tetap dan depresiasi");
    ("Contacts", "Customer, vendor, and employee contact management - Manajemen kontak pelanggan, vendor, dan karyawan");
    ("Users", "User account and role management - Manajemen pengguna dan peran");
    ("Settings", "System settings and configuration - Pengaturan sistem dan konfigurasi") ].

(** [{tag.get('name') for tag in tags if isinstance(tag, dict)}]: an object
    without a name contributes [None]. *)
Definition tag_names (ts : list tagval) : gset (option string) :=
  list_to_set (omap (λ t, match t with
                          | TagDict n _ => Some n
                          | TagOther _ => None
                          end) ts).

(** [for tag in core_tags: if tag['name'] not in existing_tag_names:
    tags.append(tag)]; the set of names is taken once, before the loop. *)
Definition add_missing_tags (new_tags : list (string * string))
    (ts : list tagval) : list tagval :=
  let existing_tag_names := tag_names ts in
  fold_left
    (λ acc tag, if decide (Some tag.1 ∉ existing_tag_names)
                then acc ++ [TagDict (Some tag.1) tag.2] else acc)
    new_tags ts.

(** [merge_swagger_endpoints] between the two loads and the save: [None]
    where the script gives up ([return False]) before it changes anything. *)
Definition merge_swagger_endpoints_doc (swagger_data additional_data : document)
    : option (document * merge_state) :=
  if doc_falsy swagger_data then None
  else if doc_falsy additional_data then None
  else match doc_paths additional_data with
       | None => None
       | Some additional_paths =>
           let st := merge_paths (default [] (doc_paths swagger_data)) additional_paths in
           Some ({| doc_paths := Some (m_paths st);
                    doc_info := update_info (doc_info swagger_data);
                    doc_tags := Some (add_missing_tags core_tags
                                        (default [] (doc_tags swagger_data)));
                    doc_definitions := doc_definitions swagger_data;
                    doc_rest := doc_rest swagger_data |}, st)
       end.

(** ** Prune by path: remove_unused_swagger_endpoints.py *)

Definition unused_endpoints : list string :=
  [ "/journal-entries/auto-generate/purchase";
    "/journal-entries/auto-generate/sale";
    "/journal-entries/{id}/post";
    "/journal-entries/{id}/reverse";
    "/journal-entries/summary";
    "/accounts/{account_id}/journal-entries";
    "/api/admin/check-cashbank-gl-links";
    "/api/admin/fix-cashbank-gl-links";
    "/api/monitoring/balance-health";
    "/api/monitoring/balance-sync";
    "/api/monitoring/discrepancies";
    "/api/monitoring/fix-discrepancies";
    "/api/monitoring/sync-status";
    "/monitoring/api-usage/analytics";
    "/monitoring/api-usage/reset";
    "/monitoring/api-usage/stats";
    "/monitoring/api-usage/top";
    "/monitoring/api-usage/unused";
    "/journal-drilldown";
    "/journal-drilldown/accounts";
    "/journal-drilldown/entries";
    "/journal-drilldown/entries/{id}";
    "/api/payments/debug/recent";
    "/api/payments/analytics";
    "/api/payments/export/excel";
    "/api/payments/report/pdf";
    "/api/payments/{id}/pdf";
    "/api/payments";
    "/api/payments/payable";
    "/api/payments/receivable";
    "/api/payments/{id}";
    "/api/reports/enhanced/financial-metrics";
    "/api/reports/enhanced/profit-loss";
    "/api/reports/enhanced/profit-loss-comparison";
    "/api/v1/admin/security/alerts";
    "/api/v1/admin/security/alerts/{id}/acknowledge";
    "/api/v1/admin/security/cleanup";
    "/api/v1/admin/security/config";
    "/api/v1/admin/security/incidents";
    "/api/v1/admin/security/incidents/{id}";
    "/api/v1/admin/security/incidents/{id}/resolve";
    "/api/v1/admin/security/ip-whitelist";
    "/api/v1/admin/security/metrics" ].

(** The body of [for endpoint in unused_endpoints] (lines 103-107):
    the paths so far and [removed_count_yaml]. *)
Definition remove_endpoint (acc : dict pathitem * nat) (endpoint : string)
    : dict pathitem * nat :=
  if dict_has endpoint acc.1 then (dict_del endpoint acc.1, S acc.2) else acc.

Definition remove_endpoints (targets : list string) (ps : dict pathitem)
    : dict pathitem * nat :=
  fold_left remove_endpoint targets (ps, 0).

Definition newline : string := String (ascii_of_nat 10) EmptyString.

(** The text appended to the description (line 117); [today] is
    [datetime.now().strftime('%Y-%m-%d')]. *)
Definition cleanup_note (today : string) : string :=
  newline +:+ newline +:+
  "NOTE: Internal/unused endpoints have been removed based on frontend usage analysis performed on "
  +:+ today +:+ " .".

(** Lines 98-117 of [remove_unused_endpoints] on the loaded YAML document,
    for a list of targets: the document that is written back and
    [removed_count_yaml]. *)
Definition remove_listed_endpoints_doc (targets : list string) (today : string)
    (swagger_data : document) : document * nat :=
  let pruned :=
    match doc_paths swagger_data with
    | Some ps => let r := remove_endpoints targets ps in (Some r.1, r.2)
    | None => (None, 0)
    end in
  let inf := default {| description := None; info_rest := "" |} (doc_info swagger_data) in
  let original_description := default "" (description inf) in
  ({| doc_paths := pruned.1;
      doc_info := Some {| description := Some (original_description +:+ cleanup_note today);
                          info_rest := info_rest inf |};
      doc_tags := doc_tags swagger_data;
      doc_definitions := doc_definitions swagger_data;
      doc_rest := doc_rest swagger_data |}, pruned.2).

(** The script, with its own list. *)
Definition remove_unused_endpoints_doc : string → document → document * nat :=
  remove_listed_endpoints_doc unused_endpoints.

(** ** The local variable [paths] and the object it names *)

(** After [paths = swagger_data.get('paths', {})] the variable names the very
    dictionary that [swagger_data] holds when the key is there, so that
    [del paths[k]] changes [swagger_data]; when the key is absent it names a
    new dictionary that [swagger_data] does not hold. *)
Inductive paths_var :=
| Aliased
| Fresh (d : dict pathitem).

Record locals := {
  swagger_data : document;
  paths_v : paths_var
}.

Definition get_paths (d : document) : locals :=
  {| swagger_data := d;
     paths_v := match doc_paths d with Some _ => Aliased | None => Fresh [] end |}.

(** Reading through the variable [paths]. *)
Definition read_paths (l : locals) : dict pathitem :=
  match paths_v l with
  | Aliased => default [] (doc_paths (swagger_data l))
  | Fresh d => d
  end.

(** [del paths[endpoint]] *)
Definition del_path (endpoint : string) (l : locals) : locals :=
  match paths_v l with
  | Aliased =>
      {| swagger_data := set_paths (dict_del endpoint <$> doc_paths (swagger_data l))
                                   (swagger_data l);
         paths_v := Aliased |}
  | Fresh d => {| swagger_data := swagger_data l; paths_v := Fresh (dict_del endpoint d) |}
  end.

(** ** Files *)

Inductive content :=
| Json (d : document)       (* a file [json.load] reads as this document *)
| Unreadable (raw : string).  (* a file [json.load] rejects *)

(** The directory: file name to content. *)
Abbreviation disk := (gmap string content).

(** [json.load(open(f))]; [None] for the exception. *)
Definition load_json (f : string) (fs : disk) : option document :=
  match fs !! f with
  | Some (Json d) => Some d
  | _ => None
  end.

(** [json.dump(d, open(f, 'w'))] *)
Definition dump_json (f : string) (d : document) (fs : disk) : disk :=
  <[f := Json d]> fs.

Definition swagger_file : string :=
  "D:\Project\clone_app_akuntansi\accounting_proj\backend\docs\swagger.json".

(** ** Prune runs: cleanup_invalid_endpoints.py, cleanup_invalid_tax_accounts.py *)

Definition invalid_endpoints : list string := [ "/api/v1/settings/accounting" ].

Definition invalid_tax_accounts_endpoints : list string :=
  [ "/api/v1/tax-accounts/all"; "/api/v1/tax-accounts/available-accounts" ].

(** The body of [for endpoint in invalid_endpoints] (lines 39-45): the
    objects and [removed_endpoints]. *)
Definition cleanup_endpoint (acc : locals * list string) (endpoint : string)
    : locals * list string :=
  if dict_has endpoint (read_paths acc.1)
  then (del_path endpoint acc.1, acc.2 ++ [endpoint])
  else acc.

Definition cleanup_loop (targets : list string) (l : locals) : locals * list string :=
  fold_left cleanup_endpoint targets (l, []).

(** A run of [cleanup_swagger]; [now] is the time stamp
    [datetime.now().strftime("%Y%m%d_%H%M%S")].  The result is the directory
    after the run and the value returned. *)
Definition cleanup_swagger (now : string) (fs : disk) : disk * bool :=
  match load_json swagger_file fs with
  | None => (fs, false)
  | Some d =>
      let r := cleanup_loop invalid_endpoints (get_paths d) in
      match r.2 with
      | _ :: _ =>
          let backup_file := swagger_file +:+ ".backup_cleanup_" +:+ now in
          let fs1 := dump_json backup_file (swagger_data r.1) fs in
          (dump_json swagger_file (swagger_data r.1) fs1, true)
      | [] => (fs, true)
      end
  end.

(** A run of [cleanup_invalid_tax_accounts]. *)
Definition cleanup_invalid_tax_accounts (now : string) (fs : disk) : disk * bool :=
  match load_json swagger_file fs with
  | None => (fs, false)
  | Some d =>
      let r := cleanup_loop invalid_tax_accounts_endpoints (get_paths d) in
      match r.2 with
      | [] => (fs, true)
      | _ :: _ =>
          let backup_file := swagger_file +:+ ".backup_cleanup_tax_accounts_" +:+ now in
          let fs1 := dump_json backup_file (swagger_data r.1) fs in
          (dump_json swagger_file (swagger_data r.1) fs1, true)
      end
  end.

(** ** Prefix rewrite: fix_tax_accounts_endpoints.py *)

Definition wrong_prefix : string := "/api/v1/settings/tax-accounts".
Definition correct_prefix : string := "/api/v1/tax-accounts".

Section rewrite.
Variables old_prefix new_prefix : string.

(** The key a path is stored under in [new_paths]. *)
Definition new_key (old_path : string) : string :=
  if startswith old_path old_prefix
  then replace_first old_prefix new_prefix old_path
  else old_path.

(** The body of [for old_path, path_data in paths.items()] (lines 57-66):
    [new_paths] and [fixed_endpoints]. *)
Definition rewrite_entry (acc : dict pathitem * list (string * string))
    (entry : string * pathitem) : dict pathitem * list (string * string) :=
  let old_path := entry.1 in
  let path_data := entry.2 in
  if startswith old_path old_prefix then
    let new_path := replace_first old_prefix new_prefix old_path in
    (dict_set new_path path_data acc.1, acc.2 ++ [(old_path, new_path)])
  else
    (dict_set old_path path_data acc.1, acc.2).

Definition rewrite_paths (ps : dict pathitem)
    : dict pathitem * list (string * string) :=
  fold_left rewrite_entry ps ([], []).

(** [endpoints_to_fix] (lines 34-37) *)
Definition endpoints_to_fix (ps : dict pathitem) : list string :=
  filter (λ p, startswith p old_prefix = true) (keys ps).
End rewrite.

(** A run of [fix_tax_accounts_endpoints]. *)
Definition fix_tax_accounts_endpoints (now : string) (fs : disk) : disk * bool :=
  match load_json swagger_file fs with
  | None => (fs, false)
  | Some d =>
      let ps := default [] (doc_paths d) in
      match endpoints_to_fix wrong_prefix ps with
      | [] => (fs, true)
      | _ :: _ =>
          let backup_file := swagger_file +:+ ".backup_tax_accounts_fix_" +:+ now in
          let fs1 := dump_json backup_file d fs in
          let r := rewrite_paths wrong_prefix correct_prefix ps in
          (dump_json swagger_file (set_paths (Some r.1) d) fs1, true)
      end
  end.

(** ** Prune by method: fix_settings_endpoints.py *)

Definition correct_settings_endpoints : dict (list string) :=
  [ ("/api/v1/settings", ["GET"; "PUT"]);
    ("/api/v1/settings/company", ["PUT"]);
    ("/api/v1/settings/system", ["PUT"]);
    ("/api/v1/settings/company/logo", ["POST"]);
    ("/api/v1/settings/reset", ["POST"]);
    ("/api/v1/settings/validation-rules", ["GET"]);
    ("/api/v1/settings/history", ["GET"]) ].

(** The check loop (lines 46-58): [incorrect_endpoints]. *)
Definition find_incorrect_entry (incorrect_endpoints : list string)
    (entry : string * pathitem) : list string :=
  let path := entry.1 in
  if startswith path "/api/v1/settings" then
    match dict_get path correct_settings_endpoints with
    | Some correct_methods =>
        fold_left
          (λ acc method, if decide (upper method ∉ correct_methods)
                         then acc ++ [upper method +:+ " " +:+ path] else acc)
          (keys entry.2) incorrect_endpoints
    | None => incorrect_endpoints ++ ["UNKNOWN " +:+ path]
    end
  else incorrect_endpoints.

Definition find_incorrect (ps : dict pathitem) : list string :=
  fold_left find_incorrect_entry ps [].

(** [for method in existing_methods: if method.upper() not in
    correct_methods: del path_data[method]] (lines 77-81): what is left of
    [path_data] and the lines added to [fixed_endpoints]. *)
Definition remove_incorrect_methods (path : string) (correct_methods : list string)
    (path_data : pathitem) : pathitem * list string :=
  fold_left
    (λ acc method, if decide (upper method ∉ correct_methods)
                   then (dict_del method acc.1, acc.2 ++ [upper method +:+ " " +:+ path])
                   else acc)
    (keys path_data) (path_data, []).

(** The fix loop (lines 71-81) on one entry of [paths]. *)
Definition fix_settings_entry (entry : string * pathitem)
    : (string * pathitem) * list string :=
  let path := entry.1 in
  if startswith path "/api/v1/settings" then
    match dict_get path correct_settings_endpoints with
    | Some correct_methods =>
        let r := remove_incorrect_methods path correct_methods entry.2 in
        ((path, r.1), r.2)
    | None => (entry, [])
    end
  else (entry, []).

(** The fix loop: the path items are changed where they are, so [paths]
    keeps its keys and their order. *)
Definition fix_settings_paths (ps : dict pathitem) : dict pathitem * list string :=
  ((λ e, (fix_settings_entry e).1) <$> ps,
   concat ((λ e, (fix_settings_entry e).2) <$> ps)).

(** [fix_settings_endpoints] on the loaded document: [None] when nothing is
    written ([return True] at line 62), else the document that is saved. *)
Definition fix_settings_endpoints_doc (d : document) : option document :=
  let ps := default [] (doc_paths d) in
  match find_incorrect ps with
  | [] => None
  | _ :: _ => Some (set_paths ((λ ps, (fix_settings_paths ps).1) <$> doc_paths d) d)
  end.

(** A run of [fix_settings_endpoints] (lines 10-90).  The backup is dumped
    (lines 64-68) before the fix loop changes the path items, so that it
    holds the document as loaded; then [swagger.json] is written. *)
Definition fix_settings_endpoints (now : string) (fs : disk) : disk * bool :=
  match load_json swagger_file fs with
  | None => (fs, false)
  | Some d =>
      match fix_settings_endpoints_doc d with
      | None => (fs, true)
      | Some fixed =>
          let backup_file := swagger_file +:+ ".backup_settings_fix_" +:+ now in
          let fs1 := dump_json backup_file d fs in
          (dump_json swagger_file fixed fs1, true)
      end
  end.

(** ** Tags of the operations: fix_swagger_display.py *)

(** Lines 95-105 (and 109-119) on one value of a path item: the value after
    it and whether the counter of fixed endpoints goes up. *)
Definition ensure_tag (tag : string) (method_data : opval) : opval * bool :=
  match method_data with
  | OpDict None rest => (OpDict (Some [tag]) rest, true)
  | OpDict (Some ts) rest =>
      if decide (tag ∉ ts) then
        match ts with
        | [] => (OpDict (Some [tag]) rest, true)
        | _ :: _ => (OpDict (Some (ts ++ [tag])) rest, true)
        end
      else (method_data, false)
  | OpOther _ => (method_data, false)
  end.

(** The tag the loop works with on a path, if any: ['/assets' in path] is
    tested first. *)
Definition inferred_tag (path : string) : option string :=
  if contains "/assets" path then Some "Assets"
  else if contains "/settings" path then Some "Settings"
  else None.

Definition fix_tags_item (path : string) (methods : pathitem) : pathitem :=
  match inferred_tag path with
  | Some tag => (λ md, (md.1, (ensure_tag tag md.2).1)) <$> methods
  | None => methods
  end.

(** [for path, methods in paths.items()] (lines 92-119) *)
Definition fix_tags_paths (ps : dict pathitem) : dict pathitem :=
  (λ e, (e.1, fix_tags_item e.1 e.2)) <$> ps.

(** [assets_endpoints_fixed] and [settings_endpoints_fixed] *)
Definition count_fixed (tag : string) (ps : dict pathitem) : nat :=
  sum_list ((λ e, if decide (inferred_tag e.1 = Some tag)
                  then length (filter (λ md, (ensure_tag tag md.2).2 = true) e.2)
                  else 0) <$> ps).

(** ** Merge of add_invoice_types_to_settings.py *)

Definition invoice_types_tag : tagval :=
  TagDict (Some "Invoice Types") "Invoice types and numbering management".

(** Lines 614-621: [paths[path][method] = spec] for every method of a path
    that exists, [paths[path] = methods] for a new path. *)
Definition add_invoice_paths (invoice_types_endpoints ps : dict pathitem)
    : dict pathitem :=
  fold_left
    (λ acc e, match dict_get e.1 acc with
              | Some item =>
                  dict_set e.1 (fold_left (λ it md, dict_set md.1 md.2 it) e.2 item) acc
              | None => dict_set e.1 e.2 acc
              end)
    invoice_types_endpoints ps.

(** Lines 625-627: [definitions[name] = definition] *)
Definition add_definitions (new_definitions defs : dict opaque) : dict opaque :=
  fold_left (λ acc e, dict_set e.1 e.2 acc) new_definitions defs.

(** [any(tag.get('name') == 'Invoice Types' for tag in tags)]; [None] when
    [tag.get] is reached on a value that is not an object and raises. *)
Fixpoint tag_exists (ts : list tagval) : option bool :=
  match ts with
  | [] => Some false
  | TagDict n _ :: ts' =>
      if decide (n = Some "Invoice Types") then Some true else tag_exists ts'
  | TagOther _ :: _ => None
  end.

(** [add_invoice_types_endpoints] between the backup and the save (lines
    612-640), with the two literal tables of the script as arguments.  Each
    of [paths], [definitions] and [tags] comes from [swagger_data.get(key,
    default)]: when the key is absent what is added goes to the default
    object and the document stays without the key.  The result is the saved
    document with [endpoints_added] and [definitions_added], or [None] when
    the tag test raises. *)
Definition add_invoice_types_endpoints_doc
    (invoice_types_endpoints : dict pathitem) (new_definitions : dict opaque)
    (d : document) : option (document * nat * nat) :=
  let ps := add_invoice_paths invoice_types_endpoints <$> doc_paths d in
  let defs := add_definitions new_definitions <$> doc_definitions d in
  match tag_exists (default [] (doc_tags d)) with
  | None => None
  | Some tag_found =>
      let ts := if tag_found then doc_tags d
                else (λ ts, ts ++ [invoice_types_tag]) <$> doc_tags d in
      Some ({| doc_paths := ps; doc_info := doc_info d; doc_tags := ts;
               doc_definitions := defs; doc_rest := doc_rest d |},
            length invoice_types_endpoints, length new_definitions)
  end.

(** ** The invariant of the data model *)

(** Every path item has at least one method. *)
Definition all_nonempty (ps : dict pathitem) : Prop :=
  Forall (λ e, e.2 ≠ []) ps.

(** ** Relations the properties are stated with *)

(** [item'] has every method of [item], with the same operation. *)
Definition item_extends (item item' : pathitem) : Prop :=
  ∀ m v, dict_get m item = Some v → dict_get m item' = Some v.

(** [ps'] has every path of [ps], each with at least the methods it had. *)
Definition paths_extend (ps ps' : dict pathitem) : Prop :=
  ∀ p item, dict_get p ps = Some item →
    ∃ item', dict_get p ps' = Some item' ∧ item_extends item item'.

(** What a merge of [patch] reports when every method of the patch exists
    already: each path of the patch that has a method, with all of them. *)
Definition patch_conflicts (patch : dict pathitem) : list conflict :=
  flat_map (λ e, match e.2 with
                 | [] => []
                 | _ :: _ => [(e.1, list_to_set (keys e.2) : gset string)]
                 end) patch.

(** The two reports name the same (path, method) pairs. *)
Definition same_conflicts (cs1 cs2 : list conflict) : Prop :=
  ∀ p m, conflict_at cs1 p m ↔ conflict_at cs2 p m.

(** [s[n:]] *)
Definition drop_prefix (n : nat) (s : string) : string :=
  String.substring n (String.length s - n) s.

(** An entry of [paths] under the key the rewrite stores it with. *)
Definition retarget (old_prefix new_prefix : string) (e : string * pathitem)
    : string * pathitem :=
  (new_key old_prefix new_prefix e.1, e.2).

(** ** Documents of the scenarios *)

Definition op1 : opval := OpDict (Some ["Settings"]) "summary: Get system settings".
Definition op2 : opval := OpDict None "summary: Update system settings".
Definition op3 : opval := OpDict (Some ["Assets"]) "summary: Get all assets".

(** The base and the patches of scenarios A and B of the specification. *)
Definition base_settings : dict pathitem := [("/api/v1/settings", [("get", op1)])].
Definition patch_A : dict pathitem :=
  [("/api/v1/settings", [("put", op2)]); ("/api/v1/assets", [("get", op3)])].
Definition patch_B : dict pathitem := [("/api/v1/settings", [("get", op2)])].

(** Scenario C with [/api/v1/tax-accounts] in the document beforehand. *)
Definition opA : opval := OpDict (Some ["Tax Accounts"]) "summary: Get all tax account settings".
Definition opB : opval := OpDict (Some ["Settings"]) "summary: Get tax accounts".
Definition opC : opval := OpDict (Some ["Settings"]) "summary: Get current tax accounts".

Definition paths_C : dict pathitem :=
  [ ("/api/v1/tax-accounts", [("get", opA)]);
    ("/api/v1/settings/tax-accounts", [("get", opB)]);
    ("/api/v1/settings/tax-accounts/current", [("get", opC)]) ].

Definition doc_C : document :=
  {| doc_paths := Some paths_C; doc_info := None; doc_tags := None;
     doc_definitions := None; doc_rest := "swagger: 2.0" |}.

(** Scenario C as the specification has it first, without the collision. *)
Definition paths_C0 : dict pathitem :=
  [ ("/api/v1/settings/tax-accounts", [("get", opB)]);
    ("/api/v1/settings/tax-accounts/current", [("get", opC)]) ].

(** Scenario D on the table of the script: [/api/v1/settings/company] with
    only a [get], which the table does not allow there. *)
Definition opD : opval := OpDict (Some ["Settings"]) "summary: Get company settings".

Definition paths_D : dict pathitem :=
  [ ("/api/v1/settings", [("get", op1); ("put", op2)]);
    ("/api/v1/settings/company", [("get", opD)]) ].

(** The methods of a path item the table allows. *)
Definition allowed_methods (correct_methods : list string) (path_data : pathitem)
    : pathitem :=
  filter (λ md, upper md.1 ∈ correct_methods) path_data.

(** The path item of an entry after the fix loop of [fix_settings_endpoints]:
    on a path of the table only the allowed methods stay. *)
Definition fixed_item (e : string * pathitem) : pathitem :=
  if startswith e.1 "/api/v1/settings" then
    match dict_get e.1 correct_settings_endpoints with
    | Some correct_methods => allowed_methods correct_methods e.2
    | None => e.2
    end
  else e.2.

(** A document with the paths of scenario A's base and nothing else. *)
Definition doc_settings : document :=
  {| doc_paths := Some base_settings; doc_info := None; doc_tags := None;
     doc_definitions := None; doc_rest := "swagger: 2.0" |}.

(** A definition that the document has and the script brings again. *)
Definition defs_old : dict opaque :=
  [ ("models.InvoiceTypeResponse", "type: object, properties: id, name");
    ("models.User", "type: object") ].
Definition defs_new : dict opaque :=
  [ ("models.InvoiceTypeResponse", "type: object, properties: id, name, code, is_active");
    ("models.InvoiceNumberRequest", "type: object, required: invoice_type_id, date") ].

Definition doc_with_defs : document :=
  {| doc_paths := Some base_settings; doc_info := None;
     doc_tags := Some [TagDict (Some "Settings") "Old settings text"];
     doc_definitions := Some defs_old; doc_rest := "swagger: 2.0" |}.

(** An operation under [/api/v1/assets/summary] that is tagged, but not with
    Assets, next to one that has no tags and a path-level parameters list. *)
Definition opE : opval := OpDict (Some ["Reports"]) "summary: Get assets summary".
Definition opF : opval := OpDict None "summary: Create asset category".

Definition paths_E : dict pathitem :=
  [ ("/api/v1/assets/summary", [("get", opE); ("parameters", OpOther "[]")]);
    ("/api/v1/assets/categories", [("get", op3); ("post", opF)]);
    ("/api/v1/users", [("get", OpDict None "summary: Get users")]) ].

(** A document with an info block. *)
Definition info_accounting : info_t :=
  {| description := Some "API untuk aplikasi akuntansi.";
     info_rest := "title: Accounting API, version: 1.0" |}.

Definition doc_with_info : document :=
  {| doc_paths := Some base_settings; doc_info := Some info_accounting;
     doc_tags := None; doc_definitions := Some defs_old; doc_rest := "swagger: 2.0" |}.

Definition doc_patch_A : document :=
  {| doc_paths := Some patch_A; doc_info := None; doc_tags := None;
     doc_definitions := None; doc_rest := "" |}.

(** The info block that [remove_unused_endpoints] writes. *)
Definition noted_info (today : string) (i : option info_t) : info_t :=
  {| description := Some (default "" (i ≫= description) +:+ cleanup_note today);
     info_rest := default "" (info_rest <$> i) |}.

(** Directories with one [swagger.json]. *)
Definition fs_settings : disk := {[ swagger_file := Json doc_settings ]}.

(** A [swagger.json] that documents [/api/v1/settings/accounting], the
    endpoint [cleanup_swagger] removes, and one with a tax-accounts path that
    [cleanup_invalid_tax_accounts] removes. *)
Definition opG : opval := OpDict (Some ["Settings"]) "summary: Get accounting settings".

Definition doc_accounting : document :=
  {| doc_paths := Some [ ("/api/v1/settings", [("get", op1)]);
                         ("/api/v1/settings/accounting", [("get", opG)]) ];
     doc_info := Some info_accounting; doc_tags := None;
     doc_definitions := None; doc_rest := "swagger: 2.0" |}.

Definition doc_accounting_pruned : document :=
  {| doc_paths := Some [ ("/api/v1/settings", [("get", op1)]) ];
     doc_info := Some info_accounting; doc_tags := None;
     doc_definitions := None; doc_rest := "swagger: 2.0" |}.

Definition fs_accounting : disk := {[ swagger_file := Json doc_accounting ]}.

Definition doc_tax : document :=
  {| doc_paths := Some [ ("/api/v1/tax-accounts", [("get", opA)]);
                         ("/api/v1/tax-accounts/all", [("get", opB)]) ];
     doc_info := None; doc_tags := None;
     doc_definitions := None; doc_rest := "swagger: 2.0" |}.

Definition doc_tax_pruned : document :=
  {| doc_paths := Some [ ("/api/v1/tax-accounts", [("get", opA)]) ];
     doc_info := None; doc_tags := None;
     doc_definitions := None; doc_rest := "swagger: 2.0" |}.

Definition fs_tax : disk := {[ swagger_file := Json doc_tax ]}.

(** ** Further notions for the properties of the loops *)

(** [paths[p][m]], [None] when the path or the method is not there. *)
Definition lookup2 (ps : dict pathitem) (p m : string) : option opval :=
  dict_get p ps ≫= dict_get m.

(** The (path, method) pairs of a document, in order. *)
Definition method_pairs (ps : dict pathitem) : list (string * string) :=
  flat_map (λ e, (λ m, (e.1, m)) <$> keys e.2) ps.

(** The keys of the paths are unique, and so are the methods of each path
    item: what [json.load] yields. *)
Definition paths_wf (ps : dict pathitem) : Prop :=
  dict_wf ps ∧ Forall (λ e, dict_wf e.2) ps.

(** A loaded document that has no ['paths'] key. *)
Definition doc_no_paths : document :=
  {| doc_paths := None; doc_info := Some info_accounting; doc_tags := None;
     doc_definitions := None; doc_rest := "swagger: 2.0" |}.

(** The paths of [doc_accounting]. *)
Definition paths_D' : dict pathitem :=
  [ ("/api/v1/settings", [("get", op1)]);
    ("/api/v1/settings/accounting", [("get", opG)]) ].


(** A document without the paths that are targets. *)
Definition prune_doc (targets : list string) (d : document) : document :=
  set_paths (filter (λ e, e.1 ∉ targets) <$> doc_paths d) d.


(** A settings path that the table of [fix_settings_endpoints] does not
    know. *)
Definition unknown_settings_path (p : string) : Prop :=
  startswith p "/api/v1/settings" = true
  ∧ dict_get p correct_settings_endpoints = None.

(** The lines [f"{method.upper()} {path}"] for the methods of a path item
    that the table does not allow. *)
Definition disallowed_lines (path : string) (correct_methods : list string)
    (path_data : pathitem) : list string :=
  (λ m, upper m +:+ " " +:+ path)
    <$> filter (λ m, upper m ∉ correct_methods) (keys path_data).


(** Scenario D as a document. *)
Definition doc_D : document :=
  {| doc_paths := Some paths_D; doc_info := None; doc_tags := None;
     doc_definitions := None; doc_rest := "swagger: 2.0" |}.


(** ** The whole of fix_swagger_display.py *)

(** [{tag.get('name', '') for tag in tags if isinstance(tag, dict)}]: here an
    object without a name contributes the empty string. *)
Definition display_tag_names (ts : list tagval) : list string :=
  omap (λ t, match t with
             | TagDict n _ => Some (default "" n)
             | TagOther _ => None
             end) ts.

Definition assets_tag : tagval :=
  TagDict (Some "Assets")
    "Fixed assets and depreciation management - Manajemen aset tetap dan depresiasi".

Definition settings_tag : tagval :=
  TagDict (Some "Settings")
    "System settings and configuration - Pengaturan sistem dan konfigurasi".

(** Lines 62-86: both tests read the set of names taken before either tag
    is appended. *)
Definition add_display_tags (ts : list tagval) : list tagval :=
  let existing_tags : gset string := list_to_set (display_tag_names ts) in
  let ts1 := if decide ("Assets" ∉ existing_tags) then ts ++ [assets_tag] else ts in
  if decide ("Settings" ∉ existing_tags) then ts1 ++ [settings_tag] else ts1.

(** The literal tables [assets_endpoints_to_add] and
    [settings_endpoints_to_add] (lines 125-319).  No script reads the entries
    of these operations other than their tags; the summary of each stands for
    them. *)
Definition assets_endpoints_to_add : dict pathitem :=
  [ ("/api/v1/assets",
     [ ("get", OpDict (Some ["Assets"]) "Get all assets");
       ("post", OpDict (Some ["Assets"]) "Create new asset") ]);
    ("/api/v1/assets/{id}",
     [ ("get", OpDict (Some ["Assets"]) "Get asset by ID");
       ("put", OpDict (Some ["Assets"]) "Update asset");
       ("delete", OpDict (Some ["Assets"]) "Delete asset") ]) ].

Definition settings_endpoints_to_add : dict pathitem :=
  [ ("/api/v1/settings",
     [ ("get", OpDict (Some ["Settings"]) "Get system settings");
       ("put", OpDict (Some ["Settings"]) "Update system settings") ]) ].

(** [if method not in paths[path]: paths[path][method] = method_data;
    added_count += 1] (lines 330-334): the test reads the path item as it is
    at that moment. *)
Definition add_missing_method (acc : pathitem * nat) (md : string * opval)
    : pathitem * nat :=
  if dict_has md.1 acc.1 then acc else (dict_set md.1 md.2 acc.1, S acc.2).

(** The body of the loops of lines 323-347: [paths] and [added_count]. *)
Definition add_missing_path (acc : dict pathitem * nat) (e : string * pathitem)
    : dict pathitem * nat :=
  match dict_get e.1 acc.1 with
  | None => (dict_set e.1 e.2 acc.1, acc.2 + length e.2)
  | Some item =>
      let r := fold_left add_missing_method e.2 (item, 0) in
      (dict_set e.1 r.1 acc.1, acc.2 + r.2)
  end.

Definition add_missing_endpoints (ps : dict pathitem) : dict pathitem * nat :=
  fold_left add_missing_path settings_endpoints_to_add
    (fold_left add_missing_path assets_endpoints_to_add (ps, 0)).

(** [fix_swagger_display] between the load and the save: the document that
    is saved and [added_count].  [paths] is [swagger_data.get('paths', {})]:
    without the key, the loops work on a dictionary of their own and the
    document stays without paths. *)
Definition fix_swagger_display_doc (d : document) : document * nat :=
  let r := add_missing_endpoints (fix_tags_paths (default [] (doc_paths d))) in
  ({| doc_paths := match doc_paths d with Some _ => Some r.1 | None => None end;
      doc_info := doc_info d;
      doc_tags := Some (add_display_tags (default [] (doc_tags d)));
      doc_definitions := doc_definitions d;
      doc_rest := doc_rest d |}, r.2).

(** ** verify_swagger.py *)

(** The lines [f"{method.upper()} {path}"] for the operations under the
    given paths whose tags do not contain [tag] (lines 76-82 and 92-98);
    a value that is not an object is passed over, an operation without a
    ['tags'] entry counts as one with none. *)
Definition without_tag (tag : string) (paths_of_module : list string)
    (ps : dict pathitem) : list string :=
  flat_map
    (λ path,
       flat_map
         (λ md, match md.2 with
                | OpDict method_tags _ =>
                    if decide (tag ∉ default [] method_tags)
                    then [upper md.1 +:+ " " +:+ path] else []
                | OpOther _ => []
                end)
         (default [] (dict_get path ps)))
    paths_of_module.

(** [verify_swagger] on the loaded document: the value it returns. *)
Definition verify_swagger_doc (d : document) : bool :=
  match doc_paths d, doc_tags d with
  | Some ps, Some ts =>
      let tag_names := display_tag_names ts in
      let assets_paths := filter (λ p, contains "/assets" p = true) (keys ps) in
      let settings_paths := filter (λ p, contains "/settings" p = true) (keys ps) in
      let assets_without_tags := without_tag "Assets" assets_paths ps in
      let settings_without_tags := without_tag "Settings" settings_paths ps in
      let assets_ok :=
        bool_decide ("Assets" ∈ tag_names)
        && bool_decide (0 < length assets_paths)%nat
        && bool_decide (length assets_without_tags = 0) in
      let settings_ok :=
        bool_decide ("Settings" ∈ tag_names)
        && bool_decide (0 < length settings_paths)%nat
        && bool_decide (length settings_without_tags = 0) in
      assets_ok && settings_ok
  | _, _ => false
  end.

(** An operation is tagged for its path as [verify_swagger] wants it. *)
Definition tagged_for (path : string) (v : opval) : Prop :=
  match v with
  | OpDict method_tags _ =>
      (contains "/assets" path = true → "Assets" ∈ default [] method_tags)
      ∧ (contains "/settings" path = true → "Settings" ∈ default [] method_tags)
  | OpOther _ => True
  end.

Definition entry_tagged (e : string * pathitem) : Prop :=
  Forall (λ md, tagged_for e.1 md.2) e.2.

(** A path that belongs to both modules. *)
Definition both_modules (p : string) : Prop :=
  contains "/assets" p = true ∧ contains "/settings" p = true.

(** A document whose only path belongs to both modules. *)
Definition doc_both : document :=
  {| doc_paths := Some [("/api/v1/settings/assets", [("get", OpDict None "Asset settings")])];
     doc_info := None; doc_tags := None; doc_definitions := None;
     doc_rest := "swagger: 2.0" |}.


(** ** Runs of fix_swagger_display.py and verify_swagger.py *)

(** [backup_file] of fix_swagger_display.py (lines 12-20): a copy of the
    file as it is, readable or not, if it exists; the directory afterwards
    and the path returned. *)
Definition backup_file (now file_path : string) (fs : disk) : disk * option string :=
  match fs !! file_path with
  | Some c =>
      let backup_path := file_path +:+ ".backup_fix_display_" +:+ now in
      (<[backup_path := c]> fs, Some backup_path)
  | None => (fs, None)
  end.

(** A run of [fix_swagger_display] on the file [swagger_path] (the
    [swagger.json] next to the script).  After the save, the summary reads
    [swagger_data['paths']] inside the same [try]: without that key the
    [KeyError] is caught and the function returns [False], the file having
    been written. *)
Definition fix_swagger_display (now swagger_path : string) (fs : disk) : disk * bool :=
  let fs1 := (backup_file now swagger_path fs).1 in
  match load_json swagger_path fs1 with
  | None => (fs1, false)
  | Some d =>
      let out := (fix_swagger_display_doc d).1 in
      (dump_json swagger_path out fs1,
       match doc_paths out with Some _ => true | None => false end)
  end.



(** * Properties *)

(** ** The string operations on the literals of the scripts *)

Example upper_get : upper "get" = "GET" ∧ upper "Post" = "POST" ∧ upper "x-404" = "X-404".
Proof. by repeat split. Qed.

Example startswith_settings :
  startswith "/api/v1/settings/company" "/api/v1/settings" = true
  ∧ startswith "/api/v1/tax-accounts" "/api/v1/settings" = false.
Proof. by split. Qed.

Example contains_assets :
  contains "/assets" "/api/v1/assets/{id}" = true
  ∧ contains "/assets" "/api/v1/settings" = false
  ∧ contains crud_marker ("API " +:+ crud_note) = false.
Proof. by repeat split. Qed.

Example replace_first_current :
  replace_first wrong_prefix correct_prefix "/api/v1/settings/tax-accounts/current"
  = "/api/v1/tax-accounts/current".
Proof. reflexivity. Qed.

Example dict_operations :
  dict_set "b" 5 (dict_del "a" [("a", 1); ("b", 2); ("c", 3)]) = [("b", 5); ("c", 3)]
  ∧ dict_set "d" 4 [("a", 1)] = [("a", 1); ("d", 4)]
  ∧ dict_get "c" [("a", 1); ("b", 2); ("c", 3)] = Some 3.
Proof. by repeat split. Qed.

(** ** Dictionaries *)

Section dict_facts.
Context {V : Type}.
Implicit Types (d : dict V) (k : string) (v : V).

Lemma dict_get_set k k' v d :
  dict_get k' (dict_set k v d) = if decide (k = k') then Some v else dict_get k' d.
Proof.
  induction d as [|[k0 v0] d IH]; simpl.
  - repeat case_decide; congruence.
  - destruct (decide (k0 = k)) as [->|Hne]; simpl.
    + repeat case_decide; congruence.
    + rewrite IH. repeat case_decide; congruence.
Qed.

Lemma dict_get_set_eq k v d : dict_get k (dict_set k v d) = Some v.
Proof. rewrite dict_get_set. by case_decide. Qed.

Lemma dict_get_set_ne k k' v d :
  k ≠ k' → dict_get k' (dict_set k v d) = dict_get k' d.
Proof. intros. rewrite dict_get_set. by case_decide. Qed.

Lemma dict_set_same k v d : dict_get k d = Some v → dict_set k v d = d.
Proof.
  induction d as [|[k0 v0] d IH]; simpl; [done|].
  case_decide; intros Hg; [congruence|]. by rewrite IH.
Qed.

Lemma dict_get_None k d : dict_get k d = None ↔ k ∉ keys d.
Proof.
  unfold keys. induction d as [|[k0 v0] d IH]; simpl.
  - split; [intros _; apply not_elem_of_nil|done].
  - rewrite not_elem_of_cons. case_decide as Hk.
    + split; [done|]. intros [? _]. congruence.
    + rewrite IH. split; [by split; [congruence|]|by intros [_ ?]].
Qed.

Lemma dict_get_is_Some k d : is_Some (dict_get k d) ↔ k ∈ keys d.
Proof.
  rewrite <- not_eq_None_Some, dict_get_None.
  split; [apply dec_stable|auto].
Qed.

Lemma dict_get_Some_elem k v d : dict_get k d = Some v → (k, v) ∈ d.
Proof.
  induction d as [|[k0 v0] d IH]; simpl; [done|].
  case_decide; intros Hg.
  - simplify_eq. apply list_elem_of_here.
  - apply list_elem_of_further. auto.
Qed.

Lemma dict_has_true k d : dict_has k d = true ↔ k ∈ keys d.
Proof.
  rewrite <- dict_get_is_Some. unfold dict_has.
  destruct (dict_get k d); split; intros H; try done; by destruct H.
Qed.

Lemma dict_has_false k d : dict_has k d = false ↔ dict_get k d = None.
Proof. unfold dict_has. by destruct (dict_get k d). Qed.

Lemma dict_del_absent k d : dict_get k d = None → dict_del k d = d.
Proof.
  unfold dict_del. induction d as [|[k0 v0] d IH]; simpl; [done|].
  case_decide; [done|]. intros Hg.
  rewrite filter_cons_True by done. by rewrite IH.
Qed.

Lemma dict_get_del k k' d :
  dict_get k' (dict_del k d) = if decide (k = k') then None else dict_get k' d.
Proof.
  unfold dict_del. induction d as [|[k0 v0] d IH]; simpl.
  - by case_decide.
  - destruct (decide (k0 = k)) as [->|Hne].
    + rewrite filter_cons_False by (simpl; auto). rewrite IH.
      repeat case_decide; congruence.
    + rewrite filter_cons_True by done. simpl. rewrite IH.
      repeat case_decide; congruence.
Qed.

Lemma dict_del_present_length k d :
  k ∈ keys d → length (dict_del k d) < length d.
Proof.
  unfold dict_del, keys. induction d as [|[k0 v0] d IH]; simpl.
  - by intros ?%elem_of_nil.
  - intros [->|Hin]%elem_of_cons.
    + rewrite filter_cons_False by (simpl; auto).
      pose proof (length_filter (λ kv : string * V, kv.1 ≠ k0) d). lia.
    + destruct (decide (k0 = k)) as [->|Hne].
      * rewrite filter_cons_False by (simpl; auto).
        pose proof (length_filter (λ kv : string * V, kv.1 ≠ k) d). lia.
      * rewrite filter_cons_True by done. simpl. specialize (IH Hin). lia.
Qed.

Lemma keys_dict_set k v d :
  keys (dict_set k v d) = if decide (k ∈ keys d) then keys d else keys d ++ [k].
Proof.
  unfold keys. induction d as [|[k0 v0] d IH]; [done|]. cbn [dict_set].
  destruct (decide (k0 = k)) as [->|Hne]; csimpl.
  - rewrite decide_True; [done|apply list_elem_of_here].
  - rewrite IH. destruct (decide (k ∈ d.*1)) as [Hin|Hnin].
    + rewrite decide_True; [done|by apply list_elem_of_further].
    + rewrite decide_False; [done|].
      rewrite elem_of_cons. intros [?|?]; congruence.
Qed.

Lemma dict_set_absent k v d : dict_get k d = None → dict_set k v d = d ++ [(k, v)].
Proof.
  induction d as [|[k0 v0] d IH]; simpl; [done|].
  case_decide; [done|]. intros Hg. by rewrite IH.
Qed.
End dict_facts.

(** ** Merge keeps what the base has *)

Lemma add_new_fold_get existing methods acc m :
  m ∈ existing →
  dict_get m (fold_left (add_new_method existing) methods acc).1 = dict_get m acc.1.
Proof.
  intros Hm. revert acc.
  induction methods as [|[k v] methods IH]; intros acc; simpl; [done|].
  rewrite IH. unfold add_new_method. case_decide as Hk; [|done]. simpl.
  apply dict_get_set_ne. intros ->. done.
Qed.

Lemma add_new_methods_get existing methods item m :
  m ∈ existing →
  dict_get m (add_new_methods existing methods item).1 = dict_get m item.
Proof. apply add_new_fold_get. Qed.

Lemma add_all_fold_get methods acc m :
  m ∉ keys methods →
  dict_get m (fold_left add_method methods acc).1 = dict_get m acc.1.
Proof.
  unfold keys. revert acc.
  induction methods as [|[k v] methods IH]; intros acc Hm; simpl; [done|].
  apply not_elem_of_cons in Hm as [Hne Hm].
  rewrite IH by done. simpl. by apply dict_get_set_ne.
Qed.

Lemma add_all_methods_get methods item m :
  m ∉ keys methods →
  dict_get m (add_all_methods methods item).1 = dict_get m item.
Proof. apply add_all_fold_get. Qed.

Lemma item_extends_refl item : item_extends item item.
Proof. by intros m v. Qed.

Lemma paths_extend_refl ps : paths_extend ps ps.
Proof. intros p item Hp. exists item. split; [done|apply item_extends_refl]. Qed.

Lemma paths_extend_trans ps1 ps2 ps3 :
  paths_extend ps1 ps2 → paths_extend ps2 ps3 → paths_extend ps1 ps3.
Proof.
  intros H12 H23 p item Hp.
  destruct (H12 p item Hp) as (item2 & Hp2 & He2).
  destruct (H23 p item2 Hp2) as (item3 & Hp3 & He3).
  exists item3. split; [done|]. intros m v Hm. auto.
Qed.

Lemma keys_elem_of_get {V} (d : dict V) k v : dict_get k d = Some v → k ∈ keys d.
Proof. intros H. apply dict_get_is_Some. by exists v. Qed.

Lemma merge_path_extends st e : paths_extend (m_paths st) (m_paths (merge_path st e)).
Proof.
  intros p item Hp. unfold merge_path.
  destruct (dict_get e.1 (m_paths st)) as [item0|] eqn:He.
  - case_decide as Hc; simpl; rewrite dict_get_set;
      (case_decide as Hk; [subst p; simplify_eq|exists item; split; [done|apply item_extends_refl]]).
    + eexists. split; [done|]. intros m v Hm.
      rewrite add_new_methods_get; [done|].
      apply elem_of_list_to_set. by eapply keys_elem_of_get.
    + eexists. split; [done|]. intros m v Hm.
      rewrite add_all_methods_get; [done|].
      intros Hin. apply keys_elem_of_get in Hm. set_solver.
  - simpl. rewrite dict_get_set_ne by congruence.
    exists item. split; [done|apply item_extends_refl].
Qed.

Lemma merge_fold_extends patch st :
  paths_extend (m_paths st) (m_paths (fold_left merge_path patch st)).
Proof.
  revert st. induction patch as [|e patch IH]; intros st; simpl.
  - apply paths_extend_refl.
  - eapply paths_extend_trans; [apply merge_path_extends|apply IH].
Qed.

Lemma merge_path_conflicts_mono st e p m :
  conflict_at (conflicts st) p m → conflict_at (conflicts (merge_path st e)) p m.
Proof.
  intros (ms & Hin & Hm). exists ms. split; [|done].
  unfold merge_path. destruct (dict_get e.1 (m_paths st)); [|done].
  case_decide; simpl; [|done]. apply elem_of_app. by left.
Qed.

Lemma merge_fold_conflicts_mono patch st p m :
  conflict_at (conflicts st) p m →
  conflict_at (conflicts (fold_left merge_path patch st)) p m.
Proof.
  revert st. induction patch as [|e patch IH]; intros st H; simpl; [done|].
  by apply IH, merge_path_conflicts_mono.
Qed.

Lemma merge_path_conflict_new st p item methods m :
  dict_get p (m_paths st) = Some item → m ∈ keys item → m ∈ keys methods →
  conflict_at (conflicts (merge_path st (p, methods))) p m.
Proof.
  intros Hp Hi Hm. unfold merge_path. simpl. rewrite Hp.
  assert (m ∈ (list_to_set (keys item) : gset string) ∩ list_to_set (keys methods))
    as Hboth by set_solver.
  rewrite decide_True by set_solver. simpl.
  eexists. split; [|exact Hboth]. apply elem_of_app. right. apply list_elem_of_here.
Qed.

Lemma merge_fold_conflict patch st p item methods m :
  dict_get p (m_paths st) = Some item → m ∈ keys item →
  (p, methods) ∈ patch → m ∈ keys methods →
  conflict_at (conflicts (fold_left merge_path patch st)) p m.
Proof.
  revert st item. induction patch as [|e patch IH]; intros st item Hp Hi Hin Hm.
  - by apply elem_of_nil in Hin.
  - simpl. apply elem_of_cons in Hin as [<-|Hin].
    + apply merge_fold_conflicts_mono. by eapply merge_path_conflict_new.
    + destruct (merge_path_extends st e p item Hp) as (item' & Hp' & He).
      apply (IH _ item'); try done.
      apply dict_get_is_Some in Hi as [v Hv].
      eapply keys_elem_of_get, He, Hv.
Qed.

(** The document [merge_swagger_endpoints] saves has the paths of the merge
    loop, run on the paths of the base ([{}] when the key is absent). *)
Lemma merge_swagger_endpoints_doc_paths sd ad out st :
  merge_swagger_endpoints_doc sd ad = Some (out, st) →
  ∃ additional_paths,
    doc_paths ad = Some additional_paths
    ∧ st = merge_paths (default [] (doc_paths sd)) additional_paths
    ∧ doc_paths out = Some (m_paths st).
Proof.
  unfold merge_swagger_endpoints_doc.
  destruct (doc_falsy sd); [done|]. destruct (doc_falsy ad); [done|].
  destruct (doc_paths ad) as [additional_paths|]; [|done].
  intros [= <- <-]. by exists additional_paths.
Qed.

(** Scenario A of the specification: a new method on a shared path and a
    new path; two methods added, no conflict. *)
Example merge_scenario_A :
  m_paths (merge_paths base_settings patch_A)
  = [("/api/v1/settings", [("get", op1); ("put", op2)]);
     ("/api/v1/assets", [("get", op3)])]
  ∧ merged_count (merge_paths base_settings patch_A) = 2
  ∧ conflicts (merge_paths base_settings patch_A) = [].
Proof. by vm_compute. Qed.

(** Scenario B: the method exists already; the base operation stays and the
    pair is reported. *)
Example merge_scenario_B :
  m_paths (merge_paths base_settings patch_B) = base_settings
  ∧ merged_count (merge_paths base_settings patch_B) = 0
  ∧ conflict_line <$> conflicts (merge_paths base_settings patch_B)
    = ["/api/v1/settings: get"].
Proof. by vm_compute. Qed.

(** C1. The merge loop of [merge_swagger_endpoints] and of
    [add_assets_settings] only adds, and the base wins: every path of the
    base is a path of the merged document; every method the base has on it
    is there with exactly the base's operation; and when the patch has that
    method on that path too, the pair is reported in [conflicts] (so the
    operation stored is the base's, not the patch's). *)
Theorem merge_additive_base_wins (base patch : dict pathitem) (p : string)
    (item : pathitem) :
  dict_get p base = Some item →
  ∃ item', dict_get p (m_paths (merge_paths base patch)) = Some item' ∧
    ∀ m v, dict_get m item = Some v →
      dict_get m item' = Some v ∧
      ∀ methods, (p, methods) ∈ patch → m ∈ keys methods →
        conflict_at (conflicts (merge_paths base patch)) p m.
Proof.
  intros Hp. unfold merge_paths.
  destruct (merge_fold_extends patch
              {| m_paths := base; conflicts := []; merged_count := 0 |} p item Hp)
    as (item' & Hp' & He).
  exists item'. split; [done|]. intros m v Hm. split; [by apply He|].
  intros methods Hin Hk.
  eapply merge_fold_conflict; [exact Hp| |exact Hin|exact Hk].
  by eapply keys_elem_of_get.
Qed.

(** Scenario B through the loop of [add_assets_settings]. *)
Lemma merge_additive_base_wins_witness :
  ∃ item', dict_get "/api/v1/settings"
             (m_paths (add_assets_settings_paths base_settings patch_B)) = Some item'
    ∧ dict_get "get" item' = Some op1
    ∧ conflict_at (conflicts (add_assets_settings_paths base_settings patch_B))
                  "/api/v1/settings" "get".
Proof.
  destruct (merge_additive_base_wins base_settings patch_B "/api/v1/settings"
              [("get", op1)] eq_refl) as (item' & Hp & H).
  exists item'. split; [exact Hp|].
  destruct (H "get" op1 eq_refl) as [Hv Hc]. split; [exact Hv|].
  apply (Hc [("get", op2)]); apply list_elem_of_here.
Defined.

(** ** Merging the same patch again *)

Lemma dict_set_keeps_key {V} (d : dict V) k k' v :
  k' ∈ keys d → k' ∈ keys (dict_set k v d).
Proof.
  rewrite <- !dict_get_is_Some, dict_get_set. case_decide; [by eexists|done].
Qed.

Lemma add_new_fold_keeps_key existing methods acc m :
  m ∈ keys acc.1 → m ∈ keys (fold_left (add_new_method existing) methods acc).1.
Proof.
  revert acc. induction methods as [|[k v] methods IH]; intros acc Hm; simpl; [done|].
  apply IH. unfold add_new_method. case_decide; [|done]. by apply dict_set_keeps_key.
Qed.

Lemma add_new_fold_covers existing methods acc m :
  (∀ k, k ∈ existing → k ∈ keys acc.1) →
  m ∈ keys methods → m ∈ keys (fold_left (add_new_method existing) methods acc).1.
Proof.
  unfold keys at 2. revert acc.
  induction methods as [|[k v] methods IH]; intros acc Hex Hm; simpl.
  - by apply elem_of_nil in Hm.
  - apply elem_of_cons in Hm as [Hmk|Hm]; simpl in *.
    + subst m. apply add_new_fold_keeps_key.
      unfold add_new_method. case_decide as Hk; simpl.
      * apply dict_get_is_Some. rewrite dict_get_set_eq. by eexists.
      * by apply Hex.
    + apply IH; [|done]. intros k' Hk'. unfold add_new_method.
      case_decide; simpl; [|by apply Hex].
      by apply dict_set_keeps_key, Hex.
Qed.

Lemma add_all_fold_keeps_key methods acc m :
  m ∈ keys acc.1 → m ∈ keys (fold_left add_method methods acc).1.
Proof.
  revert acc. induction methods as [|[k v] methods IH]; intros acc Hm; simpl; [done|].
  apply IH. by apply dict_set_keeps_key.
Qed.

Lemma add_all_fold_covers methods acc m :
  m ∈ keys methods → m ∈ keys (fold_left add_method methods acc).1.
Proof.
  unfold keys at 1. revert acc.
  induction methods as [|[k v] methods IH]; intros acc Hm; simpl.
  - by apply elem_of_nil in Hm.
  - apply elem_of_cons in Hm as [Hmk|Hm]; simpl in *; [|by apply IH].
    subst m. apply add_all_fold_keeps_key.
    apply dict_get_is_Some. simpl. rewrite dict_get_set_eq. by eexists.
Qed.

(** After its own step every method of a patch entry is in the document. *)
Lemma merge_path_covers st p methods :
  ∃ item, dict_get p (m_paths (merge_path st (p, methods))) = Some item ∧
          ∀ m, m ∈ keys methods → m ∈ keys item.
Proof.
  unfold merge_path. simpl.
  destruct (dict_get p (m_paths st)) as [item|] eqn:Hp.
  - case_decide; simpl; rewrite dict_get_set_eq; eexists; (split; [done|]); intros m Hm.
    + apply add_new_fold_covers; [|done]. intros k. by rewrite elem_of_list_to_set.
    + by apply add_all_fold_covers.
  - simpl. rewrite dict_get_set_eq. by eexists.
Qed.

Lemma merge_fold_covers patch st p methods :
  (p, methods) ∈ patch →
  ∃ item, dict_get p (m_paths (fold_left merge_path patch st)) = Some item ∧
          ∀ m, m ∈ keys methods → m ∈ keys item.
Proof.
  revert st. induction patch as [|e patch IH]; intros st Hin; simpl.
  - by apply elem_of_nil in Hin.
  - apply elem_of_cons in Hin as [<-|Hin]; [|by apply IH].
    destruct (merge_path_covers st p methods) as (item & Hp & Hk).
    destruct (merge_fold_extends patch _ p item Hp) as (item' & Hp' & He).
    exists item'. split; [done|]. intros m Hm.
    pose proof (Hk m Hm) as Hi. apply dict_get_is_Some in Hi as [v Hv].
    eapply keys_elem_of_get, He, Hv.
Qed.

Lemma add_new_methods_noop existing methods item :
  (∀ m, m ∈ keys methods → m ∈ existing) →
  add_new_methods existing methods item = (item, 0).
Proof.
  unfold add_new_methods, keys. generalize (item, 0).
  induction methods as [|[k v] methods IH]; intros acc Hall; simpl; [done|].
  unfold add_new_method at 2. rewrite decide_False.
  - apply IH. intros m Hm. apply Hall. by apply list_elem_of_further.
  - intros Hk. apply Hk, Hall. apply list_elem_of_here.
Qed.

(** On a document that has every method of the entry the step stores
    nothing and reports the whole entry. *)
Lemma merge_path_covered st p methods item :
  dict_get p (m_paths st) = Some item →
  (∀ m, m ∈ keys methods → m ∈ keys item) →
  merge_path st (p, methods)
  = {| m_paths := m_paths st;
       conflicts := conflicts st ++ patch_conflicts [(p, methods)];
       merged_count := merged_count st |}.
Proof.
  intros Hp Hall. unfold merge_path. simpl. rewrite Hp.
  destruct methods as [|[k v] methods].
  - rewrite decide_False by set_solver. simpl.
    rewrite dict_set_same by done. by rewrite Nat.add_0_r, app_nil_r.
  - rewrite decide_True.
    2:{ assert (k ∈ keys item) by (apply Hall, list_elem_of_here). set_solver. }
    rewrite add_new_methods_noop.
    2:{ intros m Hm. apply elem_of_list_to_set. by apply Hall. }
    simpl. rewrite dict_set_same by done. rewrite Nat.add_0_r.
    do 4 f_equal. apply set_eq. intros m.
    rewrite elem_of_intersection, elem_of_union, elem_of_singleton,
      !elem_of_list_to_set.
    specialize (Hall m). unfold keys in Hall at 1.
    rewrite fmap_cons, elem_of_cons in Hall. simpl in Hall. tauto.
Qed.

Lemma merge_fold_covered patch st :
  (∀ p methods, (p, methods) ∈ patch →
     ∃ item, dict_get p (m_paths st) = Some item ∧
             ∀ m, m ∈ keys methods → m ∈ keys item) →
  fold_left merge_path patch st
  = {| m_paths := m_paths st;
       conflicts := conflicts st ++ patch_conflicts patch;
       merged_count := merged_count st |}.
Proof.
  revert st. induction patch as [|[p methods] patch IH]; intros st Hall; simpl.
  - rewrite app_nil_r. by destruct st.
  - destruct (Hall p methods) as (item & Hp & Hk); [apply list_elem_of_here|].
    rewrite (merge_path_covered st p methods item Hp Hk).
    rewrite IH; simpl.
    + unfold patch_conflicts. simpl. by rewrite app_nil_r, <- app_assoc.
    + intros p' methods' Hin. apply Hall. by apply list_elem_of_further.
Qed.

Lemma merge_path_conflict_origin st e p m :
  conflict_at (conflicts (merge_path st e)) p m →
  conflict_at (conflicts st) p m ∨ (p = e.1 ∧ m ∈ keys e.2).
Proof.
  unfold merge_path. destruct (dict_get e.1 (m_paths st)) as [item|]; [|by left].
  case_decide; simpl; [|by left].
  intros (ms & Hin & Hm). apply elem_of_app in Hin as [Hin|Hin].
  - left. by exists ms.
  - apply list_elem_of_singleton in Hin. simplify_eq. right. split; [done|].
    apply elem_of_intersection in Hm as [_ Hm]. by apply elem_of_list_to_set in Hm.
Qed.

Lemma merge_fold_conflict_origin patch st p m :
  conflict_at (conflicts (fold_left merge_path patch st)) p m →
  conflict_at (conflicts st) p m ∨ ∃ methods, (p, methods) ∈ patch ∧ m ∈ keys methods.
Proof.
  revert st. induction patch as [|e patch IH]; intros st H; simpl in *; [by left|].
  destruct (IH _ H) as [H1|(methods & Hin & Hm)].
  - destruct (merge_path_conflict_origin st e p m H1) as [?|[-> Hm]]; [by left|].
    right. exists e.2. split; [|done]. destruct e. apply list_elem_of_here.
  - right. exists methods. split; [|done]. by apply list_elem_of_further.
Qed.

Lemma patch_conflicts_at patch p methods m :
  (p, methods) ∈ patch → m ∈ keys methods → conflict_at (patch_conflicts patch) p m.
Proof.
  intros Hin Hm. exists (list_to_set (keys methods)). split.
  - unfold patch_conflicts. apply list_elem_of_In, in_flat_map.
    exists (p, methods). split; [by apply list_elem_of_In|]. simpl.
    destruct methods; [by apply elem_of_nil in Hm|]. by left.
  - by apply elem_of_list_to_set.
Qed.


(** ** Prefix rewrite *)

Lemma index_prefix p s : String.prefix p s = true → String.index 0 p s = Some 0.
Proof.
  destruct s as [|c s]; simpl.
  - by destruct p.
  - destruct p as [|a p]; [done|]. by intros ->.
Qed.

(** On a path that starts with the prefix [replace(old, new, 1)] is the new
    prefix followed by the rest of the path. *)
Lemma replace_first_prefix old new s :
  startswith s old = true → replace_first old new s = new +:+ drop_prefix (String.length old) s.
Proof.
  unfold startswith, replace_first, drop_prefix. intros H.
  rewrite (index_prefix _ _ H). simpl. by destruct s.
Qed.

Section rewrite_facts.
Variables old new : string.

Lemma rewrite_entry_paths acc e :
  (rewrite_entry old new acc e).1 = dict_set (new_key old new e.1) e.2 acc.1.
Proof. unfold rewrite_entry, new_key. by destruct (startswith e.1 old). Qed.

Lemma rewrite_fold_paths ps acc :
  (fold_left (rewrite_entry old new) ps acc).1
  = fold_left (λ d e, dict_set (new_key old new e.1) e.2 d) ps acc.1.
Proof.
  revert acc. induction ps as [|e ps IH]; intros acc; simpl; [done|].
  by rewrite IH, rewrite_entry_paths.
Qed.

Lemma rewrite_fold_fixed ps acc :
  (fold_left (rewrite_entry old new) ps acc).2
  = acc.2 ++ ((λ p, (p, new +:+ drop_prefix (String.length old) p))
               <$> endpoints_to_fix old ps).
Proof.
  unfold endpoints_to_fix, keys. revert acc.
  induction ps as [|e ps IH]; intros acc; simpl; [by rewrite app_nil_r|].
  rewrite IH. unfold rewrite_entry. csimpl.
  destruct (startswith e.1 old) eqn:Hs; simpl.
  - rewrite filter_cons_True by done. csimpl.
    rewrite (replace_first_prefix _ _ _ Hs). by rewrite <- app_assoc.
  - rewrite filter_cons_False; [done|]. by rewrite Hs.
Qed.

Lemma dict_get_app {V} (d1 d2 : dict V) k :
  dict_get k (d1 ++ d2)
  = match dict_get k d1 with Some v => Some v | None => dict_get k d2 end.
Proof.
  induction d1 as [|[k0 v0] d1 IH]; simpl; [done|]. by case_decide.
Qed.

(** The value under a key is the one stored last. *)
Lemma set_fold_get (ps acc : dict pathitem) k :
  dict_get k (fold_left (λ d e, dict_set (new_key old new e.1) e.2 d) ps acc)
  = match dict_get k (rev (retarget old new <$> ps)) with
    | Some v => Some v
    | None => dict_get k acc
    end.
Proof.
  revert acc. induction ps as [|e ps IH]; intros acc; [done|].
  cbn [fold_left]. rewrite IH, fmap_cons. cbn [rev]. rewrite dict_get_app.
  destruct (dict_get k (rev (retarget old new <$> ps))); [done|].
  rewrite dict_get_set. simpl. by case_decide.
Qed.

(** Without two paths on one key the loop only appends. *)
Lemma set_fold_nodup (ps acc : dict pathitem) :
  NoDup (keys acc ++ (new_key old new <$> keys ps)) →
  fold_left (λ d e, dict_set (new_key old new e.1) e.2 d) ps acc
  = acc ++ (retarget old new <$> ps).
Proof.
  unfold keys. revert acc.
  induction ps as [|e ps IH]; intros acc Hnd; simpl; [by rewrite app_nil_r|].
  csimpl in Hnd.
  rewrite dict_set_absent.
  - rewrite IH.
    + by rewrite <- app_assoc.
    + rewrite fmap_app. csimpl. by rewrite <- app_assoc.
  - apply dict_get_None. unfold keys.
    apply NoDup_app in Hnd as (_ & Hdisj & _). intros Hin.
    apply (Hdisj _ Hin). apply list_elem_of_here.
Qed.
End rewrite_facts.

(** Scenario C of the specification, without a collision. *)
Example rewrite_scenario_C :
  rewrite_paths wrong_prefix correct_prefix paths_C0
  = ([ ("/api/v1/tax-accounts", [("get", opB)]);
       ("/api/v1/tax-accounts/current", [("get", opC)]) ],
     [ ("/api/v1/settings/tax-accounts", "/api/v1/tax-accounts");
       ("/api/v1/settings/tax-accounts/current", "/api/v1/tax-accounts/current") ]).
Proof. reflexivity. Qed.

(** C3, as the script has it.  The rewrite has no collision test and no
    collision report: every path that starts with the old prefix is renamed
    to the new prefix followed by the rest of the path and listed in
    [fixed_endpoints]; every other path keeps its key; a key of the result
    holds the path item stored under it last, in document order.  When the
    resulting keys are all different, nothing is lost: the result is the
    document's entries, in order, each unchanged under its resulting key. *)
Theorem rewrite_prefix_renames_all (old new : string) (ps : dict pathitem) :
  (∀ p, new_key old new p
        = if startswith p old then new +:+ drop_prefix (String.length old) p else p)
  ∧ (rewrite_paths old new ps).2
    = ((λ p, (p, new +:+ drop_prefix (String.length old) p)) <$> endpoints_to_fix old ps)
  ∧ (∀ k, dict_get k (rewrite_paths old new ps).1
          = dict_get k (rev (retarget old new <$> ps)))
  ∧ (NoDup (new_key old new <$> keys ps) →
     (rewrite_paths old new ps).1 = retarget old new <$> ps).
Proof.
  unfold rewrite_paths. repeat split.
  - intros p. unfold new_key. destruct (startswith p old) eqn:Hs; [|done].
    by apply replace_first_prefix.
  - by rewrite rewrite_fold_fixed.
  - intros k. rewrite rewrite_fold_paths, set_fold_get. simpl.
    by destruct (dict_get k (rev (retarget old new <$> ps))).
  - intros Hnd. rewrite rewrite_fold_paths. by rewrite set_fold_nodup.
Qed.

(** Scenario C without a collision. *)
Lemma rewrite_prefix_renames_all_witness :
  (rewrite_paths wrong_prefix correct_prefix paths_C0).1
  = [ ("/api/v1/tax-accounts", [("get", opB)]);
      ("/api/v1/tax-accounts/current", [("get", opC)]) ].
Proof.
  destruct (rewrite_prefix_renames_all wrong_prefix correct_prefix paths_C0)
    as (_ & _ & _ & H).
  rewrite H; [reflexivity|].
  compute_done.
Defined.

(** The claim C3 as it is written fails.  With [/api/v1/tax-accounts] in the
    document the rename of [/api/v1/settings/tax-accounts] is carried out and
    listed as fixed, its original entry is gone, and the path item that was
    under [/api/v1/tax-accounts] is lost: three entries go in, two come
    out.  The run saves that document and returns [True]. *)
Lemma rewrite_collision_overwrites :
  (rewrite_paths wrong_prefix correct_prefix paths_C).1
  = [ ("/api/v1/tax-accounts", [("get", opB)]);
      ("/api/v1/tax-accounts/current", [("get", opC)]) ]
  ∧ (rewrite_paths wrong_prefix correct_prefix paths_C).2
    = [ ("/api/v1/settings/tax-accounts", "/api/v1/tax-accounts");
        ("/api/v1/settings/tax-accounts/current", "/api/v1/tax-accounts/current") ]
  ∧ dict_get "/api/v1/settings/tax-accounts"
      (rewrite_paths wrong_prefix correct_prefix paths_C).1 = None
  ∧ dict_get "/api/v1/tax-accounts" paths_C = Some [("get", opA)]
  ∧ dict_get "/api/v1/tax-accounts"
      (rewrite_paths wrong_prefix correct_prefix paths_C).1 = Some [("get", opB)]
  ∧ length paths_C = 3
  ∧ length (rewrite_paths wrong_prefix correct_prefix paths_C).1 = 2
  ∧ (fix_tax_accounts_endpoints "20250131_120000" {[ swagger_file := Json doc_C ]}).2
    = true
  ∧ (fix_tax_accounts_endpoints "20250131_120000" {[ swagger_file := Json doc_C ]}).1
      !! swagger_file
    = Some (Json (set_paths (Some [ ("/api/v1/tax-accounts", [("get", opB)]);
                                    ("/api/v1/tax-accounts/current", [("get", opC)]) ])
                            doc_C)).
Proof. repeat split; by vm_compute. Qed.

(** ** Prune by method *)

Lemma filter_ext_elem {A} (P Q : A → Prop) `{!∀ x, Decision (P x)}
    `{!∀ x, Decision (Q x)} (l : list A) :
  (∀ x, x ∈ l → (P x ↔ Q x)) → filter P l = filter Q l.
Proof.
  induction l as [|x l IH]; intros Hext; [done|].
  rewrite !filter_cons.
  rewrite IH by (intros y Hy; apply Hext; by apply list_elem_of_further).
  pose proof (Hext x (list_elem_of_here _ _)) as Hx.
  destruct (decide (P x)), (decide (Q x)); tauto.
Qed.

Lemma filter_all {A} (P : A → Prop) `{!∀ x, Decision (P x)} (l : list A) :
  (∀ x, x ∈ l → P x) → filter P l = l.
Proof.
  induction l as [|x l IH]; intros Hall; [done|].
  rewrite filter_cons_True by apply Hall, list_elem_of_here.
  rewrite IH; [done|]. intros y Hy. by apply Hall, list_elem_of_further.
Qed.

Lemma remove_incorrect_fold (path : string) (correct_methods ks : list string)
    (acc : pathitem * list string) :
  (fold_left
     (λ acc method, if decide (upper method ∉ correct_methods)
                    then (dict_del method acc.1, acc.2 ++ [upper method +:+ " " +:+ path])
                    else acc) ks acc).1
  = filter (λ md, ¬ (md.1 ∈ ks ∧ upper md.1 ∉ correct_methods)) acc.1.
Proof.
  revert acc. induction ks as [|k ks IH]; intros acc; simpl.
  - symmetry. apply filter_all. intros x _ [Hx _]. by apply elem_of_nil in Hx.
  - rewrite IH. case_decide as Hk; simpl.
    + unfold dict_del. rewrite list_filter_filter. apply list_filter_iff.
      intros [m v]. simpl. rewrite elem_of_cons.
      split.
      * intros [H1 H2] [[->|H3] H4]; [done|]. apply H1. done.
      * intros H. split; [intros [??]; apply H; auto|]. intros ->. apply H. auto.
    + apply list_filter_iff. intros [m v]. simpl. rewrite elem_of_cons.
      split.
      * intros H1 [[->|H3] H4]; [done|]. apply H1. done.
      * intros H [??]. apply H. auto.
Qed.

(** What is left of a path item is its allowed methods, in order. *)
Lemma remove_incorrect_methods_allowed (path : string) (correct_methods : list string)
    (path_data : pathitem) :
  (remove_incorrect_methods path correct_methods path_data).1
  = allowed_methods correct_methods path_data.
Proof.
  unfold remove_incorrect_methods, allowed_methods.
  rewrite remove_incorrect_fold. simpl. apply filter_ext_elem.
  intros [m v] Hin. simpl. split.
  - intros H. destruct (decide (upper m ∈ correct_methods)) as [|Hn]; [done|].
    exfalso. apply H. split; [|done].
    unfold keys. apply list_elem_of_fmap. by exists (m, v).
  - intros H [_ Hn]. done.
Qed.

Lemma fix_settings_entry_key e : (fix_settings_entry e).1.1 = e.1.
Proof.
  unfold fix_settings_entry. destruct (startswith e.1 "/api/v1/settings"); [|done].
  by destruct (dict_get e.1 correct_settings_endpoints).
Qed.

Lemma fix_settings_keys ps : keys (fix_settings_paths ps).1 = keys ps.
Proof.
  unfold fix_settings_paths, keys. simpl. rewrite <- list_fmap_compose.
  apply list_fmap_ext. intros _ e _. apply fix_settings_entry_key.
Qed.

Lemma fix_settings_paths_items ps :
  (fix_settings_paths ps).1 = (λ e, (e.1, fixed_item e)) <$> ps.
Proof.
  unfold fix_settings_paths. simpl. apply list_fmap_ext. intros _ e _.
  unfold fix_settings_entry, fixed_item.
  destruct (startswith e.1 "/api/v1/settings"); [|by destruct e].
  destruct (dict_get e.1 correct_settings_endpoints); [|by destruct e].
  simpl. by rewrite remove_incorrect_methods_allowed.
Qed.

(** ** The operations and the invariant *)

Lemma dict_set_nonempty {V} (d : dict V) k v : dict_set k v d ≠ [].
Proof. destruct d as [|[k0 v0] d]; simpl; [done|]. by case_decide. Qed.

Lemma all_nonempty_get ps k item :
  all_nonempty ps → dict_get k ps = Some item → item ≠ [].
Proof.
  intros Hall Hk. apply dict_get_Some_elem in Hk.
  by apply (proj1 (Forall_forall _ _) Hall (k, item)).
Qed.

Lemma all_nonempty_set ps k item :
  all_nonempty ps → item ≠ [] → all_nonempty (dict_set k item ps).
Proof.
  unfold all_nonempty. intros Hall Hi.
  induction Hall as [|[k0 v0] ps Hx Hall IH]; simpl.
  - by repeat constructor.
  - case_decide; constructor; done.
Qed.

Lemma add_new_fold_nonempty existing methods acc :
  acc.1 ≠ [] → (fold_left (add_new_method existing) methods acc).1 ≠ [].
Proof.
  revert acc. induction methods as [|md methods IH]; intros acc Hne; simpl; [done|].
  apply IH. unfold add_new_method. case_decide; [|done]. apply dict_set_nonempty.
Qed.

Lemma add_all_fold_nonempty methods acc :
  acc.1 ≠ [] → (fold_left add_method methods acc).1 ≠ [].
Proof.
  revert acc. induction methods as [|md methods IH]; intros acc Hne; simpl; [done|].
  apply IH. apply dict_set_nonempty.
Qed.

Lemma merge_path_nonempty st e :
  all_nonempty (m_paths st) → e.2 ≠ [] → all_nonempty (m_paths (merge_path st e)).
Proof.
  intros Hall He. unfold merge_path.
  destruct (dict_get e.1 (m_paths st)) as [item|] eqn:Hp.
  - pose proof (all_nonempty_get _ _ _ Hall Hp) as Hi.
    case_decide; simpl; apply all_nonempty_set; try done.
    + by apply add_new_fold_nonempty.
    + by apply add_all_fold_nonempty.
  - simpl. by apply all_nonempty_set.
Qed.

Lemma merge_fold_nonempty patch st :
  all_nonempty (m_paths st) → all_nonempty patch →
  all_nonempty (m_paths (fold_left merge_path patch st)).
Proof.
  intros Hst Hp. revert st Hst.
  induction Hp as [|e patch He Hp IH]; intros st Hst; simpl; [done|].
  apply IH. by apply merge_path_nonempty.
Qed.

Lemma remove_endpoints_nonempty targets ps :
  all_nonempty ps → all_nonempty (remove_endpoints targets ps).1.
Proof.
  unfold remove_endpoints. change ps with (ps, 0).1 at 1. generalize (ps, 0).
  induction targets as [|t targets IH]; intros acc Hall; simpl; [done|].
  apply IH. unfold remove_endpoint. destruct (dict_has t acc.1); [|done].
  simpl. unfold dict_del, all_nonempty in *.
  apply Forall_forall. intros e [_ He]%list_elem_of_filter.
  by apply (proj1 (Forall_forall _ _) Hall).
Qed.

Lemma rewrite_paths_nonempty old new ps :
  all_nonempty ps → all_nonempty (rewrite_paths old new ps).1.
Proof.
  unfold rewrite_paths. rewrite rewrite_fold_paths. simpl.
  assert (all_nonempty []) as Hacc by constructor. revert Hacc.
  generalize ([] : dict pathitem).
  intros acc Hacc Hps. revert acc Hacc.
  induction Hps as [|e ps He Hps IH]; intros acc Hacc; simpl; [done|].
  apply IH. by apply all_nonempty_set.
Qed.

Lemma fix_tags_paths_nonempty ps :
  all_nonempty ps → all_nonempty (fix_tags_paths ps).
Proof.
  unfold fix_tags_paths, all_nonempty. intros Hall.
  apply Forall_fmap. eapply Forall_impl; [exact Hall|].
  intros [p item] Hne. simpl in *. unfold fix_tags_item.
  destruct (inferred_tag p); [|done]. by destruct item.
Qed.

(** C4, as the scripts have it.  Pruning by method ([fix_settings_endpoints])
    removes methods only: the result has the keys of the document, in order,
    and under each key of the table the allowed methods of its path item, also
    when none is left.  The merge, the prune by path, the prefix rewrite and
    the tag repair keep the invariant that every path item has a method. *)
Theorem operations_and_nonempty_items :
  (∀ ps, (fix_settings_paths ps).1 = (λ e, (e.1, fixed_item e)) <$> ps)
  ∧ (∀ base patch, all_nonempty base → all_nonempty patch →
       all_nonempty (m_paths (merge_paths base patch)))
  ∧ (∀ targets ps, all_nonempty ps → all_nonempty (remove_endpoints targets ps).1)
  ∧ (∀ old new ps, all_nonempty ps → all_nonempty (rewrite_paths old new ps).1)
  ∧ (∀ ps, all_nonempty ps → all_nonempty (fix_tags_paths ps)).
Proof.
  split; [exact fix_settings_paths_items|].
  split; [intros base patch Hb Hp; by apply merge_fold_nonempty|].
  split; [exact remove_endpoints_nonempty|].
  split; [exact rewrite_paths_nonempty|exact fix_tags_paths_nonempty].
Qed.

(** The invariant on the documents of scenarios A and C. *)
Lemma operations_and_nonempty_items_witness :
  all_nonempty (m_paths (merge_paths base_settings patch_A))
  ∧ all_nonempty (remove_endpoints unused_endpoints base_settings).1
  ∧ all_nonempty (rewrite_paths wrong_prefix correct_prefix paths_C).1
  ∧ all_nonempty (fix_tags_paths base_settings).
Proof.
  destruct operations_and_nonempty_items as (_ & Hm & Hp & Hr & Ht).
  assert (all_nonempty base_settings) as Hb by (by repeat constructor).
  split; [apply Hm; [exact Hb|by repeat constructor]|].
  split; [apply Hp; exact Hb|].
  split; [apply Hr; by repeat constructor|apply Ht; exact Hb].
Defined.

(** Scenario D on the script: the last method of the path is removed and the
    path stays, with no method. *)
Example fix_settings_scenario_D :
  fix_settings_paths paths_D
  = ([ ("/api/v1/settings", [("get", op1); ("put", op2)]);
       ("/api/v1/settings/company", []) ],
     [ "GET /api/v1/settings/company" ]).
Proof. by vm_compute. Qed.

(** The claim C4 as it is written fails: the document that
    [fix_settings_endpoints] saves for scenario D maps
    [/api/v1/settings/company] to an empty path item, though every path item
    of the input has a method. *)
Lemma fix_settings_leaves_empty_item :
  all_nonempty paths_D
  ∧ dict_get "/api/v1/settings/company" (fix_settings_paths paths_D).1 = Some []
  ∧ ¬ all_nonempty (fix_settings_paths paths_D).1
  ∧ (doc_paths <$> fix_settings_endpoints_doc
       {| doc_paths := Some paths_D; doc_info := None; doc_tags := None;
          doc_definitions := None; doc_rest := "" |})
    = Some (Some [ ("/api/v1/settings", [("get", op1); ("put", op2)]);
                   ("/api/v1/settings/company", []) ]).
Proof.
  split; [by repeat constructor|]. split; [by vm_compute|].
  split; [|by vm_compute].
  intros Hall.
  by apply (all_nonempty_get _ "/api/v1/settings/company" [] Hall).
Qed.

(** ** Prune by path *)

Lemma remove_endpoint_absent ps n t :
  dict_get t ps = None → remove_endpoint (ps, n) t = (ps, n).
Proof. intros H. unfold remove_endpoint. simpl. by rewrite (proj2 (dict_has_false _ _) H). Qed.

Lemma cleanup_endpoint_absent l removed t :
  dict_get t (read_paths l) = None → cleanup_endpoint (l, removed) t = (l, removed).
Proof. intros H. unfold cleanup_endpoint. simpl. by rewrite (proj2 (dict_has_false _ _) H). Qed.

Lemma remove_endpoints_absent (targets : list string) ps n :
  (∀ t, t ∈ targets → dict_get t ps = None) →
  fold_left remove_endpoint targets (ps, n) = (ps, n).
Proof.
  induction targets as [|t targets IH]; intros Hall; simpl; [done|].
  rewrite remove_endpoint_absent by apply Hall, list_elem_of_here.
  apply IH. intros t' Ht'. by apply Hall, list_elem_of_further.
Qed.

Lemma cleanup_loop_absent (targets : list string) l removed :
  (∀ t, t ∈ targets → dict_get t (read_paths l) = None) →
  fold_left cleanup_endpoint targets (l, removed) = (l, removed).
Proof.
  induction targets as [|t targets IH]; intros Hall; simpl; [done|].
  rewrite cleanup_endpoint_absent by apply Hall, list_elem_of_here.
  apply IH. intros t' Ht'. by apply Hall, list_elem_of_further.
Qed.

Lemma read_get_paths d : read_paths (get_paths d) = default [] (doc_paths d).
Proof. unfold read_paths, get_paths. simpl. by destruct (doc_paths d). Qed.


Lemma string_length_append s1 s2 :
  String.length (s1 +:+ s2) = String.length s1 + String.length s2.
Proof. induction s1 as [|c s1 IH]; simpl; [done|]. by rewrite IH. Qed.

Lemma append_nonempty_ne s x : x ≠ "" → s +:+ x ≠ s.
Proof.
  intros Hx Heq. apply (f_equal String.length) in Heq.
  rewrite string_length_append in Heq. destruct x; [done|]. simpl in Heq. lia.
Qed.

Lemma cleanup_note_nonempty today : cleanup_note today ≠ "".
Proof. unfold cleanup_note, newline. simpl. discriminate. Qed.

(** The document that [remove_unused_endpoints] writes back is never the
    document it loaded: the description has grown by the note. *)
Lemma remove_listed_endpoints_doc_changes targets today d :
  (remove_listed_endpoints_doc targets today d).1 ≠ d.
Proof.
  intros Heq. apply (f_equal doc_info) in Heq.
  unfold remove_listed_endpoints_doc in Heq. cbn [fst doc_info] in Heq.
  destruct (doc_info d) as [[[s|] rest]|]; cbn in Heq; [|discriminate..].
  injection Heq as Heq. by apply append_nonempty_ne in Heq; [|apply cleanup_note_nonempty].
Qed.

(** C5, as the scripts have it.  Pruning a target that is not a path of the
    document changes no path and counts nothing: the step of the loop of
    [remove_unused_endpoints] returns the paths and the count it was given,
    the step of [cleanup_swagger] leaves [swagger_data] and
    [removed_endpoints] as they are, and a whole loop over absent targets
    counts zero removals, so a repeated run finds nothing to remove.  The
    loop of [cleanup_swagger] then leaves the whole document as it was
    loaded.  [remove_unused_endpoints] returns the document with the same
    paths, tags, definitions and other entries, but with its dated note
    appended to the description of the info block: what it returns is never
    the document it was given. *)
Theorem prune_absent_target_noop (d : document) (targets : list string) :
  (∀ t, t ∈ targets → dict_get t (default [] (doc_paths d)) = None) →
  (∀ t n, t ∈ targets →
     remove_endpoint (default [] (doc_paths d), n) t = (default [] (doc_paths d), n))
  ∧ (∀ t removed, t ∈ targets →
       cleanup_endpoint (get_paths d, removed) t = (get_paths d, removed))
  ∧ (∀ today, doc_paths (remove_listed_endpoints_doc targets today d).1 = doc_paths d
              ∧ (remove_listed_endpoints_doc targets today d).2 = 0)
  ∧ swagger_data (cleanup_loop targets (get_paths d)).1 = d
  ∧ (cleanup_loop targets (get_paths d)).2 = []
  ∧ (∀ today,
       (remove_listed_endpoints_doc targets today d).1
       = {| doc_paths := doc_paths d;
            doc_info := Some (noted_info today (doc_info d));
            doc_tags := doc_tags d;
            doc_definitions := doc_definitions d;
            doc_rest := doc_rest d |}
       ∧ (remove_listed_endpoints_doc targets today d).1 ≠ d).
Proof.
  intros Hall.
  assert (∀ today, doc_paths (remove_listed_endpoints_doc targets today d).1 = doc_paths d
                   ∧ (remove_listed_endpoints_doc targets today d).2 = 0) as Hpaths.
  { intros today. unfold remove_listed_endpoints_doc. simpl.
    destruct (doc_paths d) as [ps|]; [|done]. simpl in *.
    unfold remove_endpoints. by rewrite remove_endpoints_absent. }
  split; [intros t n Ht; by apply remove_endpoint_absent, Hall|].
  split.
  { intros t removed Ht. apply cleanup_endpoint_absent.
    rewrite read_get_paths. by apply Hall. }
  split; [exact Hpaths|].
  assert (cleanup_loop targets (get_paths d) = (get_paths d, [])) as Hloop.
  { unfold cleanup_loop. apply cleanup_loop_absent.
    intros t Ht. rewrite read_get_paths. by apply Hall. }
  rewrite Hloop. split; [done|]. split; [done|].
  intros today. split; [|apply remove_listed_endpoints_doc_changes].
  destruct (Hpaths today) as [Hp _]. revert Hp.
  unfold remove_listed_endpoints_doc, noted_info. cbn [fst doc_paths].
  intros ->. by destruct (doc_info d) as [[desc rest]|].
Qed.

(** The target [/not/present] of the specification. *)
Lemma prune_absent_target_noop_witness :
  (doc_paths (remove_listed_endpoints_doc ["/not/present"] "2025-01-31" doc_settings).1
   = Some base_settings
   ∧ (remove_listed_endpoints_doc ["/not/present"] "2025-01-31" doc_settings).2 = 0)
  ∧ swagger_data (cleanup_loop ["/not/present"] (get_paths doc_settings)).1 = doc_settings
  ∧ (cleanup_loop ["/not/present"] (get_paths doc_settings)).2 = []
  ∧ (remove_listed_endpoints_doc ["/not/present"] "2025-01-31" doc_settings).1
    ≠ doc_settings.
Proof.
  destruct (prune_absent_target_noop doc_settings ["/not/present"])
    as (_ & _ & H1 & H2 & H3 & H4).
  - intros t Ht. apply list_elem_of_singleton in Ht. subst t. reflexivity.
  - split; [exact (H1 "2025-01-31")|]. split; [exact H2|]. split; [exact H3|].
    exact (proj2 (H4 "2025-01-31")).
Defined.

(** The claim C5 as it is written fails for [remove_unused_endpoints]: the
    target is no path of this document and nothing is removed, yet the
    document returned is not the document given. *)
Lemma prune_absent_target_changes_document :
  dict_get "/not/present" (default [] (doc_paths doc_with_info)) = None
  ∧ (remove_listed_endpoints_doc ["/not/present"] "2025-01-31" doc_with_info).2 = 0
  ∧ doc_info (remove_listed_endpoints_doc ["/not/present"] "2025-01-31" doc_with_info).1
    = Some {| description :=
                Some ("API untuk aplikasi akuntansi." +:+ newline +:+ newline +:+
                      "NOTE: Internal/unused endpoints have been removed based on frontend usage analysis performed on 2025-01-31 .");
              info_rest := "title: Accounting API, version: 1.0" |}
  ∧ (remove_listed_endpoints_doc ["/not/present"] "2025-01-31" doc_with_info).1
    ≠ doc_with_info.
Proof.
  split; [reflexivity|]. split; [reflexivity|]. split; [reflexivity|].
  intros Heq. apply (f_equal doc_info) in Heq. vm_compute in Heq. discriminate Heq.
Qed.

(** ** Tags and definitions in a merge *)

Lemma add_missing_fold (existing : gset (option string))
    (new_tags : list (string * string)) (acc : list tagval) :
  fold_left
    (λ acc tag, if decide (Some tag.1 ∉ existing)
                then acc ++ [TagDict (Some tag.1) tag.2] else acc)
    new_tags acc
  = acc ++ ((λ tag, TagDict (Some tag.1) tag.2)
            <$> filter (λ tag, Some tag.1 ∉ existing) new_tags).
Proof.
  revert acc. induction new_tags as [|tag new_tags IH]; intros acc.
  - simpl. by rewrite app_nil_r.
  - cbn [fold_left]. rewrite IH.
    destruct (decide (Some tag.1 ∉ existing)) as [Ht|Ht].
    + rewrite decide_True, filter_cons_True by done.
      rewrite fmap_cons. by rewrite <- app_assoc.
    + by rewrite decide_False, filter_cons_False.
Qed.

Lemma dict_get_rev_wf {V} (d : dict V) k :
  dict_wf d → dict_get k (rev d) = dict_get k d.
Proof.
  unfold dict_wf, keys. induction d as [|[k0 v0] d IH]; intros Hnd; [done|].
  csimpl in Hnd. apply NoDup_cons in Hnd as [Hk0 Hnd].
  cbn [rev]. rewrite dict_get_app, IH by done. simpl.
  case_decide as Hk.
  - subst k0. by rewrite (proj2 (dict_get_None k d) Hk0).
  - by destruct (dict_get k d).
Qed.

Lemma add_definitions_get_rev (new_definitions defs : dict opaque) name :
  dict_get name (add_definitions new_definitions defs)
  = match dict_get name (rev new_definitions) with
    | Some v => Some v
    | None => dict_get name defs
    end.
Proof.
  unfold add_definitions. revert defs.
  induction new_definitions as [|e new_definitions IH]; intros defs; [done|].
  cbn [fold_left rev]. rewrite IH, dict_get_app.
  destruct (dict_get name (rev new_definitions)); [done|].
  rewrite dict_get_set. destruct e as [k v]. simpl. by case_decide.
Qed.

(** C6, as the scripts have it.  Tags follow the presence rule: the declared
    tags stay as they are and a new tag is appended only when no declared
    tag has its name; no count of them is kept.  Definitions do not: the
    only script that merges them, [add_invoice_types_endpoints], stores
    every definition of the patch under its name, in place of the one the
    document has under that name if there is one, leaves the other
    definitions alone, and reports the size of the patch;
    [merge_swagger_endpoints] passes the definitions through. *)
Theorem tags_base_wins_definitions_patch_wins :
  (∀ new_tags ts,
     add_missing_tags new_tags ts
     = ts ++ ((λ tag, TagDict (Some tag.1) tag.2)
              <$> filter (λ tag, Some tag.1 ∉ tag_names ts) new_tags))
  ∧ (∀ sd ad out st, merge_swagger_endpoints_doc sd ad = Some (out, st) →
       doc_tags out = Some (add_missing_tags core_tags (default [] (doc_tags sd)))
       ∧ doc_definitions out = doc_definitions sd)
  ∧ (∀ new_definitions defs name, dict_wf new_definitions →
       dict_get name (add_definitions new_definitions defs)
       = match dict_get name new_definitions with
         | Some v => Some v
         | None => dict_get name defs
         end)
  ∧ (∀ eps new_definitions d out n_eps n_defs,
       add_invoice_types_endpoints_doc eps new_definitions d = Some (out, n_eps, n_defs) →
       doc_definitions out = add_definitions new_definitions <$> doc_definitions d
       ∧ n_defs = length new_definitions).
Proof.
  split; [intros; apply add_missing_fold|].
  split.
  { intros sd ad out st. unfold merge_swagger_endpoints_doc.
    destruct (doc_falsy sd); [done|]. destruct (doc_falsy ad); [done|].
    destruct (doc_paths ad); [|done]. intros [= <- _]. done. }
  split.
  { intros new_definitions defs name Hwf.
    by rewrite add_definitions_get_rev, dict_get_rev_wf. }
  intros eps new_definitions d out n_eps n_defs.
  unfold add_invoice_types_endpoints_doc.
  destruct (tag_exists (default [] (doc_tags d))); [|done].
  intros [= <- _ <-]. done.
Qed.

(** A definition that is in the document and in the patch. *)
Lemma tags_base_wins_definitions_patch_wins_witness :
  dict_get "models.InvoiceTypeResponse" (add_definitions defs_new defs_old)
  = Some "type: object, properties: id, name, code, is_active"
  ∧ (∃ out, add_invoice_types_endpoints_doc patch_A defs_new doc_with_defs
            = Some (out, 2, 2)
            ∧ doc_definitions out = Some (add_definitions defs_new defs_old)).
Proof.
  destruct tags_base_wins_definitions_patch_wins as (_ & _ & Hget & Hdoc).
  split.
  - rewrite Hget; [reflexivity|]. compute_done.
  - eexists. split; [reflexivity|].
    eapply (proj1 (Hdoc patch_A defs_new doc_with_defs _ 2 2 eq_refl)).
Defined.

(** The tags of [merge_swagger_endpoints] on a document that declares
    Settings already: that declaration stays, the five other core tags are
    appended. *)
Example core_tags_on_declared :
  add_missing_tags core_tags [TagDict (Some "Settings") "Old settings text"]
  = [ TagDict (Some "Settings") "Old settings text";
      TagDict (Some "Accounts") "Chart of accounts management - Manajemen bagan akun (COA)";
      TagDict (Some "Products") "Product and inventory management - Manajemen produk dan inventori";
      TagDict (Some "Assets") "Fixed assets and depreciation management - Manajemen aset tetap dan depresiasi";
      TagDict (Some "Contacts") "Customer, vendor, and employee contact management - Manajemen kontak pelanggan, vendor, dan karyawan";
      TagDict (Some "Users") "User account and role management - Manajemen pengguna dan peran" ].
Proof. by vm_compute. Qed.

(** The claim C6 as it is written fails for definitions: the definition the
    document has under [models.InvoiceTypeResponse] is replaced by the one of
    the patch, and two definitions are reported as added though one name was
    there before. *)
Lemma definitions_are_overwritten :
  dict_get "models.InvoiceTypeResponse" defs_old
  = Some "type: object, properties: id, name"
  ∧ ∃ out, add_invoice_types_endpoints_doc patch_A defs_new doc_with_defs
           = Some (out, 2, 2)
    ∧ doc_definitions out
      = Some [ ("models.InvoiceTypeResponse",
                "type: object, properties: id, name, code, is_active");
               ("models.User", "type: object");
               ("models.InvoiceNumberRequest",
                "type: object, required: invoice_type_id, date") ].
Proof. split; [reflexivity|]. eexists. split; reflexivity. Qed.

(** ** Tags of the operations *)

Lemma dict_get_fmap_values {V W} (f : string → V → W) (d : dict V) k :
  dict_get k ((λ e, (e.1, f e.1 e.2)) <$> d) = f k <$> dict_get k d.
Proof.
  induction d as [|[k0 v0] d IH]; [done|].
  rewrite fmap_cons. simpl. case_decide; [by subst|done].
Qed.

Lemma fix_tags_paths_get ps path :
  dict_get path (fix_tags_paths ps) = fix_tags_item path <$> dict_get path ps.
Proof. unfold fix_tags_paths. apply dict_get_fmap_values. Qed.

Lemma fix_tags_item_get path methods m :
  dict_get m (fix_tags_item path methods)
  = match inferred_tag path with
    | Some tag => (λ v, (ensure_tag tag v).1) <$> dict_get m methods
    | None => dict_get m methods
    end.
Proof.
  unfold fix_tags_item. destruct (inferred_tag path) as [tag|]; [|done].
  apply (dict_get_fmap_values (λ _ v, (ensure_tag tag v).1)).
Qed.

Example fix_tags_paths_E :
  fix_tags_paths paths_E
  = [ ("/api/v1/assets/summary",
       [("get", OpDict (Some ["Reports"; "Assets"]) "summary: Get assets summary");
        ("parameters", OpOther "[]")]);
      ("/api/v1/assets/categories",
       [("get", op3);
        ("post", OpDict (Some ["Assets"]) "summary: Create asset category")]);
      ("/api/v1/users", [("get", OpDict None "summary: Get users")]) ]
  ∧ count_fixed "Assets" paths_E = 2 ∧ count_fixed "Settings" paths_E = 0.
Proof. by vm_compute. Qed.

(** C7, as the script has it.  The loop works on the paths that contain
    [/assets] (tag Assets) or else [/settings] (tag Settings) and on the
    values that are objects.  There an operation without a [tags] entry or
    with an empty one gets the list of that one tag; an operation whose tags
    contain the tag is left as it is; an operation with other tags keeps
    them, in order, and gets the tag appended.  Every other value of the
    document is left as it is. *)
Theorem tag_repair_by_case (ps : dict pathitem) (path : string)
    (methods : pathitem) (m : string) (v : opval) :
  dict_get path ps = Some methods → dict_get m methods = Some v →
  ∃ methods' v',
    dict_get path (fix_tags_paths ps) = Some methods'
    ∧ dict_get m methods' = Some v'
    ∧ match inferred_tag path, v with
      | None, _ => v' = v
      | Some tag, OpOther _ => v' = v
      | Some tag, OpDict None rest => v' = OpDict (Some [tag]) rest
      | Some tag, OpDict (Some []) rest => v' = OpDict (Some [tag]) rest
      | Some tag, OpDict (Some ts) rest =>
          (tag ∈ ts → v' = v) ∧ (tag ∉ ts → v' = OpDict (Some (ts ++ [tag])) rest)
      end.
Proof.
  intros Hp Hm.
  exists (fix_tags_item path methods).
  exists (match inferred_tag path with
          | Some tag => (ensure_tag tag v).1
          | None => v
          end).
  split; [by rewrite fix_tags_paths_get, Hp|].
  split; [rewrite fix_tags_item_get, Hm; by destruct (inferred_tag path)|].
  destruct (inferred_tag path) as [tag|]; [|done].
  destruct v as [[ts|] rest|o]; try done.
  unfold ensure_tag. destruct ts as [|t ts].
  - by rewrite decide_True by apply not_elem_of_nil.
  - case_decide as Ht; simpl; split; intros Hin; try done.
Qed.

(** An operation that has the tag Assets already. *)
Lemma tag_repair_by_case_witness :
  ∃ methods', dict_get "/api/v1/assets/categories" (fix_tags_paths paths_E) = Some methods'
    ∧ dict_get "get" methods' = Some op3.
Proof.
  destruct (tag_repair_by_case paths_E "/api/v1/assets/categories"
              [("get", op3); ("post", opF)] "get" op3 eq_refl eq_refl)
    as (methods' & v' & Hp & Hm & Hv).
  exists methods'. split; [exact Hp|]. rewrite Hm. f_equal.
  apply Hv. apply list_elem_of_here.
Defined.

(** The claim C7 as it is written fails: the operation of
    [/api/v1/assets/summary] has the non-empty tags [Reports], and the repair
    extends them with Assets. *)
Lemma tagged_operation_is_extended :
  dict_get "/api/v1/assets/summary" paths_E
  = Some [("get", OpDict (Some ["Reports"]) "summary: Get assets summary");
          ("parameters", OpOther "[]")]
  ∧ dict_get "/api/v1/assets/summary" (fix_tags_paths paths_E)
    = Some [("get", OpDict (Some ["Reports"; "Assets"]) "summary: Get assets summary");
            ("parameters", OpOther "[]")].
Proof. split; reflexivity. Qed.

(** ** What a merge and a prune leave alone *)

Lemma update_info_rest i : info_rest <$> update_info i = info_rest <$> i.
Proof.
  destruct i as [[[d|] r]|]; simpl; try done.
  unfold update_info. simpl. by destruct (contains crud_marker d).
Qed.

Lemma update_info_description i :
  update_info i ≫= description
  = match i ≫= description with
    | Some d => if contains crud_marker d then Some d else Some (d +:+ crud_note)
    | None => None
    end.
Proof.
  destruct i as [[[d|] r]|]; simpl; try done.
  unfold update_info. simpl. by destruct (contains crud_marker d).
Qed.

Lemma cleanup_loop_frame (targets : list string) l removed :
  doc_info (swagger_data (fold_left cleanup_endpoint targets (l, removed)).1)
  = doc_info (swagger_data l)
  ∧ doc_tags (swagger_data (fold_left cleanup_endpoint targets (l, removed)).1)
    = doc_tags (swagger_data l)
  ∧ doc_definitions (swagger_data (fold_left cleanup_endpoint targets (l, removed)).1)
    = doc_definitions (swagger_data l)
  ∧ doc_rest (swagger_data (fold_left cleanup_endpoint targets (l, removed)).1)
    = doc_rest (swagger_data l).
Proof.
  revert l removed. induction targets as [|t targets IH]; intros l removed; [done|].
  cbn [fold_left].
  destruct (cleanup_endpoint (l, removed) t) as [l1 r1] eqn:Hstep.
  destruct (IH l1 r1) as (H1 & H2 & H3 & H4). rewrite H1, H2, H3, H4.
  unfold cleanup_endpoint in Hstep. simpl in Hstep.
  destruct (dict_has t (read_paths l)); simplify_eq; [|done].
  unfold del_path. by destruct (paths_v l).
Qed.

(** C9, as the scripts have it.  A merge ([merge_swagger_endpoints]) passes
    the definitions and every other top-level field through and keeps the
    info block but for its description: a description that does not contain
    the text "dengan fitur lengkap CRUD" gets a sentence appended.  A prune
    by [remove_unused_endpoints] passes tags, definitions and the other
    top-level fields through, and always appends its note to the description
    of the info block, which it creates when there is none; the other entries
    of the info block stay.  A prune by [cleanup_swagger] changes the paths
    only. *)
Theorem merge_and_prune_frame :
  (∀ sd ad out st, merge_swagger_endpoints_doc sd ad = Some (out, st) →
     doc_definitions out = doc_definitions sd
     ∧ doc_rest out = doc_rest sd
     ∧ info_rest <$> doc_info out = info_rest <$> doc_info sd
     ∧ doc_info out ≫= description
       = match doc_info sd ≫= description with
         | Some d => if contains crud_marker d then Some d else Some (d +:+ crud_note)
         | None => None
         end)
  ∧ (∀ targets today d,
       doc_tags (remove_listed_endpoints_doc targets today d).1 = doc_tags d
       ∧ doc_definitions (remove_listed_endpoints_doc targets today d).1 = doc_definitions d
       ∧ doc_rest (remove_listed_endpoints_doc targets today d).1 = doc_rest d
       ∧ doc_info (remove_listed_endpoints_doc targets today d).1
         = Some (noted_info today (doc_info d)))
  ∧ (∀ targets d,
       doc_info (swagger_data (cleanup_loop targets (get_paths d)).1) = doc_info d
       ∧ doc_tags (swagger_data (cleanup_loop targets (get_paths d)).1) = doc_tags d
       ∧ doc_definitions (swagger_data (cleanup_loop targets (get_paths d)).1)
         = doc_definitions d
       ∧ doc_rest (swagger_data (cleanup_loop targets (get_paths d)).1) = doc_rest d).
Proof.
  split.
  { intros sd ad out st. unfold merge_swagger_endpoints_doc.
    destruct (doc_falsy sd); [done|]. destruct (doc_falsy ad); [done|].
    destruct (doc_paths ad); [|done]. intros [= <- _]. simpl.
    by rewrite update_info_rest, update_info_description. }
  split.
  { intros targets today d. unfold remove_listed_endpoints_doc, noted_info. simpl.
    repeat split. by destruct (doc_info d). }
  intros targets d. apply (cleanup_loop_frame targets (get_paths d) []).
Qed.

(** Scenario A on a document with an info block and definitions. *)
Lemma merge_and_prune_frame_witness :
  ∃ out st, merge_swagger_endpoints_doc doc_with_info doc_patch_A = Some (out, st)
    ∧ doc_definitions out = Some defs_old
    ∧ doc_rest out = "swagger: 2.0"
    ∧ info_rest <$> doc_info out = Some "title: Accounting API, version: 1.0".
Proof.
  destruct merge_and_prune_frame as (Hm & _ & _).
  do 2 eexists. split; [reflexivity|].
  destruct (Hm doc_with_info doc_patch_A _ _ eq_refl) as (H1 & H2 & H3 & _).
  split; [exact H1|]. split; [exact H2|exact H3].
Defined.

(** The claim C9 as it is written fails: the merge and the prune both
    change the info block of this document, by the sentence and by the note
    they append to its description. *)
Lemma info_description_is_changed :
  (∃ out st, merge_swagger_endpoints_doc doc_with_info doc_patch_A = Some (out, st)
     ∧ doc_info out
       = Some {| description :=
                   Some "API untuk aplikasi akuntansi. Termasuk endpoint CRUD lengkap untuk akun, produk, aset, kontak, user, dan pengaturan sistem.";
                 info_rest := "title: Accounting API, version: 1.0" |}
     ∧ doc_info out ≠ doc_info doc_with_info)
  ∧ doc_info (remove_unused_endpoints_doc "2025-01-31" doc_with_info).1
    = Some {| description :=
                Some ("API untuk aplikasi akuntansi." +:+ newline +:+ newline +:+
                      "NOTE: Internal/unused endpoints have been removed based on frontend usage analysis performed on 2025-01-31 .");
              info_rest := "title: Accounting API, version: 1.0" |}
  ∧ doc_info (remove_unused_endpoints_doc "2025-01-31" doc_with_info).1
    ≠ doc_info doc_with_info.
Proof.
  split; [do 2 eexists; split; [reflexivity|]; split; [reflexivity|discriminate]|].
  split; [reflexivity|discriminate].
Qed.

(** ** Runs that find nothing to do *)

Lemma filter_none {A} (P : A → Prop) `{!∀ x, Decision (P x)} (l : list A) :
  (∀ x, x ∈ l → ¬ P x) → filter P l = [].
Proof.
  induction l as [|x l IH]; intros Hall; [done|].
  rewrite filter_cons_False by apply Hall, list_elem_of_here.
  apply IH. intros y Hy. by apply Hall, list_elem_of_further.
Qed.

Lemma cleanup_loop_none (targets : list string) d :
  (∀ t, t ∈ targets → dict_get t (default [] (doc_paths d)) = None) →
  cleanup_loop targets (get_paths d) = (get_paths d, []).
Proof.
  intros Hall. unfold cleanup_loop. apply cleanup_loop_absent.
  intros t Ht. rewrite read_get_paths. by apply Hall.
Qed.

(** C10. A run of [cleanup_swagger], of [cleanup_invalid_tax_accounts] or of
    [fix_tax_accounts_endpoints] that loads the document and finds none of
    its targets among the paths writes nothing: the directory after the run
    is the directory before it (the document is as it was and there is no
    backup file), and the run returns [True]. *)
Theorem no_match_no_write (now : string) (fs : disk) (d : document) :
  load_json swagger_file fs = Some d →
  ((∀ t, t ∈ invalid_endpoints → dict_get t (default [] (doc_paths d)) = None) →
   cleanup_swagger now fs = (fs, true))
  ∧ ((∀ t, t ∈ invalid_tax_accounts_endpoints →
           dict_get t (default [] (doc_paths d)) = None) →
     cleanup_invalid_tax_accounts now fs = (fs, true))
  ∧ ((∀ p, p ∈ keys (default [] (doc_paths d)) → startswith p wrong_prefix = false) →
     fix_tax_accounts_endpoints now fs = (fs, true)).
Proof.
  intros Hload. repeat split.
  - intros Hall. unfold cleanup_swagger. rewrite Hload.
    by rewrite cleanup_loop_none.
  - intros Hall. unfold cleanup_invalid_tax_accounts. rewrite Hload.
    by rewrite cleanup_loop_none.
  - intros Hall. unfold fix_tax_accounts_endpoints. rewrite Hload.
    unfold endpoints_to_fix. rewrite filter_none; [done|].
    intros p Hp. rewrite (Hall p Hp). done.
Qed.

(** The three runs on a document that has none of their targets. *)
Lemma no_match_no_write_witness :
  cleanup_swagger "20250131_120000" fs_settings = (fs_settings, true)
  ∧ cleanup_invalid_tax_accounts "20250131_120000" fs_settings = (fs_settings, true)
  ∧ fix_tax_accounts_endpoints "20250131_120000" fs_settings = (fs_settings, true).
Proof.
  destruct (no_match_no_write "20250131_120000" fs_settings doc_settings eq_refl)
    as (H1 & H2 & H3).
  split; [apply H1|split; [apply H2|apply H3]]; intros t Ht;
    repeat (apply elem_of_cons in Ht as [->|Ht]; [reflexivity|]);
    by apply elem_of_nil in Ht.
Defined.

(** The claim C10 as it is written, of every prune run, fails for
    [fix_settings_endpoints]: on this document its fix loop removes nothing
    (the check loop has only listed a settings path that its table does not
    have), and yet the run creates its backup file and writes
    [swagger.json]. *)
Lemma fix_settings_writes_without_removal :
  fix_settings_paths (default [] (doc_paths doc_accounting))
  = (default [] (doc_paths doc_accounting), [])
  ∧ fs_accounting !! (swagger_file +:+ ".backup_settings_fix_20250131_120000") = None
  ∧ (fix_settings_endpoints "20250131_120000" fs_accounting).1
      !! (swagger_file +:+ ".backup_settings_fix_20250131_120000")
    = Some (Json doc_accounting)
  ∧ (fix_settings_endpoints "20250131_120000" fs_accounting).2 = true
  ∧ fix_settings_endpoints "20250131_120000" fs_accounting ≠ (fs_accounting, true).
Proof.
  split; [reflexivity|]. split; [by vm_compute|]. split; [by vm_compute|].
  split; [reflexivity|]. intros Heq.
  apply (f_equal (λ r, r.1 !! (swagger_file +:+ ".backup_settings_fix_20250131_120000")))
    in Heq.
  vm_compute in Heq. discriminate Heq.
Qed.

(** ** The backup of a prune run *)

Lemma read_del_path t l : read_paths (del_path t l) = dict_del t (read_paths l).
Proof.
  unfold read_paths, del_path. destruct (paths_v l); simpl; [|done].
  by destruct (doc_paths (swagger_data l)).
Qed.

(** Each removal takes an entry out of what [paths] names, and [paths] goes
    on naming the dictionary of [swagger_data] if it did. *)
Lemma cleanup_fold_measure (targets : list string) l removed :
  (length (read_paths (fold_left cleanup_endpoint targets (l, removed)).1)
   + length (fold_left cleanup_endpoint targets (l, removed)).2
   ≤ length (read_paths l) + length removed)%nat
  ∧ (length removed ≤ length (fold_left cleanup_endpoint targets (l, removed)).2)%nat
  ∧ (paths_v l = Aliased →
     paths_v (fold_left cleanup_endpoint targets (l, removed)).1 = Aliased).
Proof.
  revert l removed. induction targets as [|t targets IH]; intros l removed.
  - simpl. split; [lia|]. split; [lia|done].
  - cbn [fold_left].
    destruct (cleanup_endpoint (l, removed) t) as [l1 r1] eqn:Hstep.
    destruct (IH l1 r1) as (H1 & H2 & H3).
    unfold cleanup_endpoint in Hstep. simpl in Hstep.
    destruct (dict_has t (read_paths l)) eqn:Hhas; simplify_eq; [|done].
    apply dict_has_true in Hhas. apply dict_del_present_length in Hhas.
    rewrite read_del_path, length_app in H1. rewrite length_app in H2. simpl in *.
    split; [lia|]. split; [lia|].
    intros Ha. apply H3. unfold del_path. by rewrite Ha.
Qed.

(** When the loop has removed something, [swagger_data] is no longer the
    document that was loaded. *)
Lemma cleanup_loop_changes (targets : list string) d :
  (cleanup_loop targets (get_paths d)).2 ≠ [] →
  swagger_data (cleanup_loop targets (get_paths d)).1 ≠ d.
Proof.
  unfold cleanup_loop. intros Hrem Heq.
  destruct (cleanup_fold_measure targets (get_paths d) []) as (H1 & _ & H3).
  assert (0 < length (fold_left cleanup_endpoint targets (get_paths d, [])).2) as Hpos.
  { destruct (fold_left cleanup_endpoint targets (get_paths d, [])).2; [done|simpl; lia]. }
  rewrite read_get_paths in H1. simpl in H1.
  destruct (doc_paths d) as [ps|] eqn:Hps; simpl in *; [|lia].
  unfold read_paths in H1. rewrite H3 in H1.
  - rewrite Heq, Hps in H1. simpl in H1. lia.
  - unfold get_paths. simpl. by rewrite Hps.
Qed.

(** Whenever [cleanup_swagger] writes, the backup it writes is the document
    it saves, which is not the document that was on disk. *)
Lemma cleanup_swagger_backup_is_saved now fs d :
  load_json swagger_file fs = Some d →
  (cleanup_loop invalid_endpoints (get_paths d)).2 ≠ [] →
  ∃ d', (cleanup_swagger now fs).1 !! (swagger_file +:+ ".backup_cleanup_" +:+ now)
        = Some (Json d')
    ∧ (cleanup_swagger now fs).1 !! swagger_file = Some (Json d')
    ∧ d' ≠ d.
Proof.
  intros Hload Hrem. pose proof (cleanup_loop_changes _ _ Hrem) as Hne.
  unfold cleanup_swagger. rewrite Hload.
  destruct (cleanup_loop invalid_endpoints (get_paths d)) as [l removed].
  simpl in *. destruct removed as [|t removed]; [done|]. simpl.
  exists (swagger_data l). unfold dump_json.
  split; [|split; [apply lookup_insert_eq|done]].
  rewrite lookup_insert. case_decide; [done|]. apply lookup_insert_eq.
Qed.

Lemma cleanup_invalid_tax_accounts_backup_is_saved now fs d :
  load_json swagger_file fs = Some d →
  (cleanup_loop invalid_tax_accounts_endpoints (get_paths d)).2 ≠ [] →
  ∃ d', (cleanup_invalid_tax_accounts now fs).1
          !! (swagger_file +:+ ".backup_cleanup_tax_accounts_" +:+ now) = Some (Json d')
    ∧ (cleanup_invalid_tax_accounts now fs).1 !! swagger_file = Some (Json d')
    ∧ d' ≠ d.
Proof.
  intros Hload Hrem. pose proof (cleanup_loop_changes _ _ Hrem) as Hne.
  unfold cleanup_invalid_tax_accounts. rewrite Hload.
  destruct (cleanup_loop invalid_tax_accounts_endpoints (get_paths d)) as [l removed].
  simpl in *. destruct removed as [|t removed]; [done|]. simpl.
  exists (swagger_data l). unfold dump_json.
  split; [|split; [apply lookup_insert_eq|done]].
  rewrite lookup_insert. case_decide; [done|]. apply lookup_insert_eq.
Qed.

(** The run of [fix_tax_accounts_endpoints] takes its backup before it
    changes anything: the backup is the document that was on disk. *)
Lemma fix_tax_accounts_backup_is_prior now fs d :
  load_json swagger_file fs = Some d →
  endpoints_to_fix wrong_prefix (default [] (doc_paths d)) ≠ [] →
  (fix_tax_accounts_endpoints now fs).1
    !! (swagger_file +:+ ".backup_tax_accounts_fix_" +:+ now) = Some (Json d).
Proof.
  intros Hload Hfix. unfold fix_tax_accounts_endpoints. rewrite Hload.
  destruct (endpoints_to_fix wrong_prefix (default [] (doc_paths d))); [done|].
  simpl. unfold dump_json. rewrite lookup_insert_ne; [apply lookup_insert_eq|].
  intros Heq. symmetry in Heq. by apply append_nonempty_ne in Heq.
Qed.

(** C8 on the scripts.  [cleanup_swagger] and [cleanup_invalid_tax_accounts]
    delete from the loaded document first and write the backup afterwards, so
    the backup they leave holds the document after the deletion, the same
    that is saved as [swagger.json], and not the one that was on disk. *)
Theorem cleanup_backup_holds_modified_document :
  fs_accounting !! swagger_file = Some (Json doc_accounting)
  ∧ (cleanup_swagger "20250131_120000" fs_accounting).1
      !! (swagger_file +:+ ".backup_cleanup_20250131_120000")
    = Some (Json doc_accounting_pruned)
  ∧ (cleanup_swagger "20250131_120000" fs_accounting).1 !! swagger_file
    = Some (Json doc_accounting_pruned)
  ∧ doc_accounting_pruned ≠ doc_accounting
  ∧ fs_tax !! swagger_file = Some (Json doc_tax)
  ∧ (cleanup_invalid_tax_accounts "20250131_120000" fs_tax).1
      !! (swagger_file +:+ ".backup_cleanup_tax_accounts_20250131_120000")
    = Some (Json doc_tax_pruned)
  ∧ (cleanup_invalid_tax_accounts "20250131_120000" fs_tax).1 !! swagger_file
    = Some (Json doc_tax_pruned)
  ∧ doc_tax_pruned ≠ doc_tax.
Proof. repeat split; try (by vm_compute); discriminate. Qed.

(** * Further properties of the scripts *)

(** ** The merge loop as a union that prefers the base *)

Lemma merge_path_other st e p :
  e.1 ≠ p → dict_get p (m_paths (merge_path st e)) = dict_get p (m_paths st).
Proof.
  intros Hne. unfold merge_path.
  destruct (dict_get e.1 (m_paths st)); [case_decide|]; simpl;
    by rewrite dict_get_set_ne.
Qed.

Lemma add_new_fold_get_fresh existing methods acc m :
  m ∉ existing →
  dict_get m (fold_left (add_new_method existing) methods acc).1
  = match dict_get m (rev methods) with
    | Some v => Some v
    | None => dict_get m acc.1
    end.
Proof.
  intros Hm. revert acc.
  induction methods as [|[k v] methods IH]; intros acc; [done|].
  cbn [fold_left rev]. rewrite IH, dict_get_app.
  destruct (dict_get m (rev methods)); [done|].
  unfold add_new_method. simpl. case_decide as Hk.
  - simpl. rewrite dict_get_set. by case_decide.
  - case_decide; [by subst|done].
Qed.

Lemma add_all_fold_get_last methods acc m :
  dict_get m (fold_left add_method methods acc).1
  = match dict_get m (rev methods) with
    | Some v => Some v
    | None => dict_get m acc.1
    end.
Proof.
  revert acc. induction methods as [|[k v] methods IH]; intros acc; [done|].
  cbn [fold_left rev]. rewrite IH, dict_get_app.
  destruct (dict_get m (rev methods)); [done|].
  unfold add_method. simpl. rewrite dict_get_set. by case_decide.
Qed.

Lemma dict_get_rev_None {V} (d : dict V) k :
  dict_get k d = None → dict_get k (rev d) = None.
Proof.
  rewrite !dict_get_None. unfold keys. intros Hk Hin. apply Hk.
  apply list_elem_of_fmap in Hin as (e & -> & He).
  apply list_elem_of_fmap. exists e. split; [done|].
  apply list_elem_of_In. apply list_elem_of_In in He. by apply in_rev.
Qed.

(** The step of the loop on the path it is for. *)
Lemma merge_path_at st p methods m :
  dict_wf methods →
  lookup2 (m_paths (merge_path st (p, methods))) p m
  = match lookup2 (m_paths st) p m with
    | Some v => Some v
    | None => dict_get m methods
    end.
Proof.
  intros Hwf. unfold lookup2, merge_path. simpl.
  destruct (dict_get p (m_paths st)) as [item|] eqn:Hp; simpl.
  - case_decide as Hc; simpl; rewrite dict_get_set_eq; simpl.
    + destruct (dict_get m item) as [v|] eqn:Hm.
      * rewrite add_new_methods_get; [done|].
        apply elem_of_list_to_set. by eapply keys_elem_of_get.
      * unfold add_new_methods. rewrite add_new_fold_get_fresh.
        -- rewrite dict_get_rev_wf by done. simpl. rewrite Hm.
           by destruct (dict_get m methods).
        -- rewrite elem_of_list_to_set. by apply dict_get_None.
    + unfold add_all_methods. rewrite add_all_fold_get_last. simpl.
      destruct (dict_get m item) as [v|] eqn:Hm.
      * rewrite dict_get_rev_None; [done|]. apply dict_get_None.
        apply keys_elem_of_get in Hm. set_solver.
      * rewrite dict_get_rev_wf by done. by destruct (dict_get m methods).
  - by rewrite dict_get_set_eq.
Qed.

Lemma lookup2_other st e p m :
  e.1 ≠ p → lookup2 (m_paths (merge_path st e)) p m = lookup2 (m_paths st) p m.
Proof. intros Hne. unfold lookup2. by rewrite merge_path_other. Qed.

Lemma paths_wf_cons e ps :
  paths_wf (e :: ps) ↔ (e.1 ∉ keys ps) ∧ dict_wf e.2 ∧ paths_wf ps.
Proof.
  unfold paths_wf, dict_wf, keys. rewrite fmap_cons, NoDup_cons, Forall_cons.
  tauto.
Qed.

Lemma lookup2_cons p0 methods ps p m :
  lookup2 ((p0, methods) :: ps) p m
  = if decide (p0 = p) then dict_get m methods else lookup2 ps p m.
Proof. unfold lookup2. simpl. by case_decide. Qed.

Lemma lookup2_absent ps p m : p ∉ keys ps → lookup2 ps p m = None.
Proof. intros Hp. unfold lookup2. by rewrite (proj2 (dict_get_None p ps) Hp). Qed.

Lemma merge_fold_lookup patch st p m :
  paths_wf patch →
  lookup2 (m_paths (fold_left merge_path patch st)) p m
  = match lookup2 (m_paths st) p m with
    | Some v => Some v
    | None => lookup2 patch p m
    end.
Proof.
  revert st. induction patch as [|[p0 methods] patch IH]; intros st Hwf.
  - simpl. by destruct (lookup2 (m_paths st) p m).
  - apply paths_wf_cons in Hwf as (Hp0 & Hm & Hwf). simpl in *.
    rewrite IH, lookup2_cons by done.
    destruct (decide (p0 = p)) as [->|Hne].
    + rewrite merge_path_at by done. rewrite (lookup2_absent patch p m Hp0).
      destruct (lookup2 (m_paths st) p m); [done|].
      by destruct (dict_get m methods).
    + by rewrite lookup2_other.
Qed.

(** X1. On documents as [json.load] yields them, the merge loop is the union
    of base and patch that prefers the base: after it, a method of a path is
    the base's operation when the base has that method on that path, else
    the patch's when the patch has it, else absent. *)
Theorem merge_is_base_biased_union (base patch : dict pathitem) (p m : string) :
  paths_wf patch →
  lookup2 (m_paths (merge_paths base patch)) p m
  = match lookup2 base p m with
    | Some v => Some v
    | None => lookup2 patch p m
    end.
Proof. intros Hwf. unfold merge_paths. by rewrite merge_fold_lookup. Qed.

(** Scenario A: the new method comes from the patch. *)
Lemma merge_is_base_biased_union_witness :
  lookup2 (m_paths (merge_paths base_settings patch_A)) "/api/v1/settings" "put" = Some op2
  ∧ lookup2 (m_paths (merge_paths base_settings patch_B)) "/api/v1/settings" "get" = Some op1.
Proof.
  split.
  - rewrite (merge_is_base_biased_union base_settings patch_A); [reflexivity|].
    split; [compute_done|]. repeat constructor; compute_done.
  - rewrite (merge_is_base_biased_union base_settings patch_B); [reflexivity|].
    split; [compute_done|]. repeat constructor; compute_done.
Defined.

(** ** What the merge counts *)

Lemma filter_fmap_length {A B} (f : A → B) (P : B → Prop) `{!∀ y, Decision (P y)}
    (l : list A) :
  length (filter P (f <$> l)) = length (filter (λ x, P (f x)) l).
Proof.
  induction l as [|x l IH]; [done|].
  rewrite fmap_cons, !filter_cons. destruct (decide (P (f x))); simpl; by rewrite IH.
Qed.

Lemma add_new_fold_count (existing : gset string) methods acc :
  (fold_left (add_new_method existing) methods acc).2
  = acc.2 + length (filter (λ m, m ∉ existing) (keys methods)).
Proof.
  unfold keys. revert acc.
  induction methods as [|[k v] methods IH]; intros acc; [simpl; lia|].
  cbn [fold_left]. rewrite IH, fmap_cons, filter_cons. unfold add_new_method. simpl.
  destruct (decide (k ∉ existing)); simpl; lia.
Qed.

Lemma add_all_fold_count methods acc :
  (fold_left add_method methods acc).2 = acc.2 + length methods.
Proof.
  revert acc. induction methods as [|md methods IH]; intros acc; [simpl; lia|].
  cbn [fold_left]. rewrite IH. simpl. lia.
Qed.

(** A step counts the methods of its entry that the document lacks. *)
Lemma merge_path_count st p methods :
  merged_count (merge_path st (p, methods))
  = merged_count st
    + length (filter (λ m, lookup2 (m_paths st) p m = None) (keys methods)).
Proof.
  unfold merge_path, lookup2. simpl.
  destruct (dict_get p (m_paths st)) as [item|] eqn:Hp; simpl.
  - case_decide as Hc; simpl; f_equal.
    + unfold add_new_methods. rewrite add_new_fold_count. simpl.
      f_equal. apply filter_ext_elem. intros m _.
      by rewrite elem_of_list_to_set, dict_get_None.
    + unfold add_all_methods. rewrite add_all_fold_count. simpl.
      rewrite filter_all; [unfold keys; by rewrite length_fmap|].
      intros m Hm. apply dict_get_None. set_solver.
  - f_equal. rewrite filter_all by done. unfold keys. by rewrite length_fmap.
Qed.

Lemma method_pairs_cons e ps :
  method_pairs (e :: ps) = ((λ m, (e.1, m)) <$> keys e.2) ++ method_pairs ps.
Proof. done. Qed.

Lemma method_pairs_path ps pm : pm ∈ method_pairs ps → pm.1 ∈ keys ps.
Proof.
  unfold method_pairs. intros Hin. apply list_elem_of_In, in_flat_map in Hin.
  destruct Hin as (e & He & Hpm). apply list_elem_of_In, list_elem_of_fmap in Hpm.
  destruct Hpm as (m & -> & _). simpl. unfold keys.
  apply list_elem_of_fmap. exists e. split; [done|]. by apply list_elem_of_In.
Qed.

Lemma merge_fold_count patch st :
  dict_wf patch →
  merged_count (fold_left merge_path patch st)
  = merged_count st
    + length (filter (λ pm, lookup2 (m_paths st) pm.1 pm.2 = None) (method_pairs patch)).
Proof.
  unfold dict_wf, keys. revert st.
  induction patch as [|[p methods] patch IH]; intros st Hwf; [simpl; lia|].
  rewrite fmap_cons in Hwf. apply NoDup_cons in Hwf as [Hp Hwf].
  cbn [fold_left]. rewrite IH, merge_path_count by done.
  rewrite method_pairs_cons, filter_app, length_app, filter_fmap_length. simpl.
  rewrite (filter_ext_elem
             (λ pm, lookup2 (m_paths (merge_path st (p, methods))) pm.1 pm.2 = None)
             (λ pm, lookup2 (m_paths st) pm.1 pm.2 = None)); [lia|].
  intros pm Hpm. rewrite lookup2_other; [done|]. simpl.
  intros ->. by apply Hp, method_pairs_path.
Qed.

(** X2. The number the merge reports ([merged_count], [added_count]) is the
    number of (path, method) pairs of the patch that the base does not have,
    provided the patch has no path twice. *)
Theorem merged_count_is_new_pairs (base patch : dict pathitem) :
  dict_wf patch →
  merged_count (merge_paths base patch)
  = length (filter (λ pm, lookup2 base pm.1 pm.2 = None) (method_pairs patch)).
Proof. intros Hwf. unfold merge_paths. by rewrite merge_fold_count. Qed.

(** Scenario A again: two methods are new. *)
Lemma merged_count_is_new_pairs_witness :
  merged_count (merge_paths base_settings patch_A) = 2
  ∧ merged_count (merge_paths base_settings patch_B) = 0.
Proof.
  split.
  - rewrite (merged_count_is_new_pairs base_settings patch_A); [reflexivity|compute_done].
  - rewrite (merged_count_is_new_pairs base_settings patch_B); [reflexivity|compute_done].
Defined.

(** ** Merging the same patch again *)

Lemma merge_path_conflict_base st e p m :
  conflict_at (conflicts (merge_path st e)) p m →
  conflict_at (conflicts st) p m ∨ (p = e.1 ∧ is_Some (lookup2 (m_paths st) p m)).
Proof.
  unfold merge_path, lookup2.
  destruct (dict_get e.1 (m_paths st)) as [item|] eqn:Hg; [|by left].
  case_decide; simpl; [|by left].
  intros (ms & Hin & Hm). apply elem_of_app in Hin as [Hin|Hin].
  - left. by exists ms.
  - apply list_elem_of_singleton in Hin. injection Hin as -> ->.
    right. split; [done|]. rewrite Hg. cbn [mbind option_bind].
    apply dict_get_is_Some.
    apply elem_of_intersection in Hm as [Hm _]. by apply elem_of_list_to_set in Hm.
Qed.

(** A conflict that a merge reports, with a patch that has no path twice,
    is a method that the document had on that path before the merge. *)
Lemma merge_fold_conflict_base patch st p m :
  dict_wf patch →
  conflict_at (conflicts (fold_left merge_path patch st)) p m →
  conflict_at (conflicts st) p m
  ∨ (p ∈ keys patch ∧ is_Some (lookup2 (m_paths st) p m)).
Proof.
  unfold dict_wf, keys. revert st.
  induction patch as [|e patch IH]; intros st Hwf H; [by left|].
  rewrite fmap_cons in Hwf. apply NoDup_cons in Hwf as [He Hwf].
  cbn [fold_left] in H. rewrite fmap_cons.
  destruct (IH _ Hwf H) as [H1|[Hin Hs]].
  - destruct (merge_path_conflict_base st e p m H1) as [?|[-> Hs]]; [by left|].
    right. split; [apply list_elem_of_here|done].
  - right. split; [by apply list_elem_of_further|].
    rewrite lookup2_other in Hs; [done|]. intros Heq. apply He. by rewrite Heq.
Qed.

Lemma method_pairs_elem patch p m :
  (p, m) ∈ method_pairs patch ↔ ∃ methods, (p, methods) ∈ patch ∧ m ∈ keys methods.
Proof.
  unfold method_pairs. rewrite list_elem_of_In, in_flat_map. split.
  - intros ([p' methods] & He & Hpm).
    apply list_elem_of_In, list_elem_of_fmap in Hpm.
    destruct Hpm as (m' & Heq & Hm). cbn [fst snd] in Heq, Hm.
    injection Heq as -> ->. exists methods. split; [by apply list_elem_of_In|done].
  - intros (methods & Hin & Hm). exists (p, methods).
    split; [by apply list_elem_of_In|].
    apply list_elem_of_In, list_elem_of_fmap. by exists m.
Qed.

Lemma patch_conflicts_origin patch p m :
  conflict_at (patch_conflicts patch) p m →
  ∃ methods, (p, methods) ∈ patch ∧ m ∈ keys methods.
Proof.
  intros (ms & Hin & Hm). unfold patch_conflicts in Hin.
  apply list_elem_of_In, in_flat_map in Hin.
  destruct Hin as ([p' methods] & He & Hc). cbn [fst snd] in Hc.
  destruct methods as [|md methods]; [done|]. destruct Hc as [Hc|[]].
  injection Hc as -> <-. exists (md :: methods).
  split; [by apply list_elem_of_In|].
  apply (proj1 (elem_of_list_to_set (C:=gset string) m (keys (md :: methods)))).
  exact Hm.
Qed.

(** The first merge adds nothing exactly when the base has every method of
    the patch. *)
Lemma merged_count_zero base patch :
  dict_wf patch →
  merged_count (merge_paths base patch) = 0
  ↔ ∀ p methods m, (p, methods) ∈ patch → m ∈ keys methods →
                   is_Some (lookup2 base p m).
Proof.
  intros Hwf. unfold merge_paths. rewrite merge_fold_count by done.
  cbn [merged_count m_paths]. rewrite Nat.add_0_l, length_zero_iff_nil. split.
  - intros Hnil p methods m Hin Hm.
    destruct (lookup2 base p m) eqn:Hl; [done|].
    assert ((p, m) ∈ filter (λ pm, lookup2 base pm.1 pm.2 = None) (method_pairs patch))
      as Hf.
    { apply list_elem_of_filter. split; [done|]. apply method_pairs_elem. eauto. }
    rewrite Hnil in Hf. by apply elem_of_nil in Hf.
  - intros Hall. apply filter_none. intros [p m] Hin Hnone.
    apply method_pairs_elem in Hin as (methods & Hin & Hm). cbn [fst snd] in Hnone.
    destruct (Hall p methods m Hin Hm) as [v Hv]. congruence.
Qed.

(** C2, as the scripts have it.  Merging the same patch again into the
    result of a merge stores nothing (the count of added methods is 0 and
    the paths are unchanged); what it reports is every path of the patch
    that has a method, with all its methods.  Every pair the first merge
    reported is reported again, next to the pairs the first merge added:
    for a patch that has no path twice, as a loaded JSON object has none,
    the two reports name the same pairs exactly when the first merge added
    nothing. *)
Theorem remerge_adds_nothing (base patch : dict pathitem) :
  merged_count (merge_paths (m_paths (merge_paths base patch)) patch) = 0
  ∧ m_paths (merge_paths (m_paths (merge_paths base patch)) patch)
    = m_paths (merge_paths base patch)
  ∧ conflicts (merge_paths (m_paths (merge_paths base patch)) patch)
    = patch_conflicts patch
  ∧ (∀ p m, conflict_at (conflicts (merge_paths base patch)) p m →
            conflict_at (conflicts (merge_paths (m_paths (merge_paths base patch)) patch)) p m)
  ∧ (dict_wf patch →
     same_conflicts
       (conflicts (merge_paths (m_paths (merge_paths base patch)) patch))
       (conflicts (merge_paths base patch))
     ↔ merged_count (merge_paths base patch) = 0).
Proof.
  assert (merge_paths (m_paths (merge_paths base patch)) patch
          = {| m_paths := m_paths (merge_paths base patch);
               conflicts := patch_conflicts patch;
               merged_count := 0 |}) as ->.
  { unfold merge_paths at 1. rewrite merge_fold_covered; [done|].
    intros p methods Hin. simpl. by apply merge_fold_covers. }
  cbn [merged_count m_paths conflicts].
  assert (∀ p m, conflict_at (conflicts (merge_paths base patch)) p m →
                 conflict_at (patch_conflicts patch) p m) as Hsub.
  { intros p m H.
    apply merge_fold_conflict_origin in H as [(ms & Hin & _)|(methods & Hin & Hm)].
    - by apply elem_of_nil in Hin.
    - by eapply patch_conflicts_at. }
  split; [done|]. split; [done|]. split; [done|]. split; [exact Hsub|].
  intros Hwf. rewrite merged_count_zero by done. split.
  - intros Hsame p methods m Hin Hm.
    pose proof (patch_conflicts_at patch p methods m Hin Hm) as Hc.
    apply Hsame in Hc. unfold merge_paths in Hc.
    apply merge_fold_conflict_base in Hc; [|done].
    destruct Hc as [(ms & Hnil & _)|[_ Hs]]; [by apply elem_of_nil in Hnil|done].
  - intros Hall p m. split; [|apply Hsub].
    intros Hc. apply patch_conflicts_origin in Hc as (methods & Hin & Hm).
    destruct (Hall p methods m Hin Hm) as [v Hv]. unfold lookup2 in Hv.
    destruct (dict_get p base) as [item|] eqn:Hg; [|done].
    cbn [mbind option_bind] in Hv. unfold merge_paths.
    apply (merge_fold_conflict patch _ p item methods m); [done| |done|done].
    by eapply keys_elem_of_get.
Qed.

(** Scenario B merged twice: its conflict is reported again, and as the
    first merge added nothing the two reports name the same pairs. *)
Lemma remerge_adds_nothing_witness :
  conflict_at
    (conflicts (merge_paths (m_paths (merge_paths base_settings patch_B)) patch_B))
    "/api/v1/settings" "get"
  ∧ same_conflicts
      (conflicts (merge_paths (m_paths (merge_paths base_settings patch_B)) patch_B))
      (conflicts (merge_paths base_settings patch_B)).
Proof.
  destruct (remerge_adds_nothing base_settings patch_B) as (_ & _ & _ & H4 & H5).
  split.
  - apply H4.
    apply (merge_fold_conflict patch_B _ "/api/v1/settings" [("get", op1)] [("get", op2)]);
      [reflexivity|apply list_elem_of_here..].
  - apply H5; [compute_done|reflexivity].
Defined.

(** The claim C2 as it is written fails: on an empty base the first merge
    of a one-method patch reports nothing, the second reports that method. *)
Lemma remerge_conflicts_differ :
  ¬ (merged_count (merge_paths (m_paths (merge_paths [] patch_B)) patch_B) = 0
     ∧ same_conflicts
         (conflicts (merge_paths (m_paths (merge_paths [] patch_B)) patch_B))
         (conflicts (merge_paths [] patch_B))).
Proof.
  intros [_ Hsame].
  destruct (Hsame "/api/v1/settings" "get") as [H _].
  destruct H as (ms & Hin & _).
  - exists {["get"]}. split; [|by apply elem_of_singleton].
    vm_compute. apply list_elem_of_here.
  - vm_compute in Hin. by apply elem_of_nil in Hin.
Qed.

(** ** The merge and the uniqueness of keys *)

Lemma dict_set_wf {V} (d : dict V) k v : dict_wf d → dict_wf (dict_set k v d).
Proof.
  unfold dict_wf. rewrite keys_dict_set. case_decide as Hk; [done|].
  intros Hd. apply NoDup_app. split; [done|]. split.
  - intros x Hx ->%list_elem_of_singleton. done.
  - apply NoDup_singleton.
Qed.

Lemma dict_set_Forall_values {V} (Q : V → Prop) (d : dict V) k v :
  Forall (λ e, Q e.2) d → Q v → Forall (λ e, Q e.2) (dict_set k v d).
Proof.
  intros Hd Hv. induction Hd as [|[k0 v0] d Hx Hd IH]; simpl.
  - by repeat constructor.
  - case_decide; constructor; done.
Qed.

Lemma dict_get_Forall_values {V} (Q : V → Prop) (d : dict V) k v :
  Forall (λ e, Q e.2) d → dict_get k d = Some v → Q v.
Proof.
  intros Hd Hk. apply dict_get_Some_elem in Hk.
  by apply (proj1 (Forall_forall _ _) Hd (k, v)).
Qed.

Lemma add_new_fold_wf existing methods acc :
  dict_wf acc.1 → dict_wf (fold_left (add_new_method existing) methods acc).1.
Proof.
  revert acc. induction methods as [|md methods IH]; intros acc Hwf; [done|].
  cbn [fold_left]. apply IH. unfold add_new_method.
  case_decide; [|done]. by apply dict_set_wf.
Qed.

Lemma add_all_fold_wf methods acc :
  dict_wf acc.1 → dict_wf (fold_left add_method methods acc).1.
Proof.
  revert acc. induction methods as [|md methods IH]; intros acc Hwf; [done|].
  cbn [fold_left]. apply IH. by apply dict_set_wf.
Qed.

Lemma merge_path_wf st e :
  paths_wf (m_paths st) → dict_wf e.2 → paths_wf (m_paths (merge_path st e)).
Proof.
  intros [Hk Hv] He. unfold merge_path.
  destruct (dict_get e.1 (m_paths st)) as [item|] eqn:Hp.
  - pose proof (dict_get_Forall_values dict_wf _ _ _ Hv Hp) as Hi.
    case_decide; simpl; (split; [by apply dict_set_wf|]);
      apply (dict_set_Forall_values dict_wf); try done.
    + by apply add_new_fold_wf.
    + by apply add_all_fold_wf.
  - simpl. split; [by apply dict_set_wf|].
    by apply (dict_set_Forall_values dict_wf).
Qed.

Lemma merge_fold_wf patch st :
  paths_wf (m_paths st) → Forall (λ e, dict_wf e.2) patch →
  paths_wf (m_paths (fold_left merge_path patch st)).
Proof.
  intros Hst Hp. revert st Hst.
  induction Hp as [|e patch He Hp IH]; intros st Hst; [done|].
  cbn [fold_left]. apply IH. by apply merge_path_wf.
Qed.

(** X3. The merge keeps keys unique: when no path occurs twice in the base
    and no method twice in a path item of the base or of the patch, the same
    holds for the merged paths. *)
Theorem merge_keeps_keys_unique (base patch : dict pathitem) :
  paths_wf base → Forall (λ e, dict_wf e.2) patch →
  paths_wf (m_paths (merge_paths base patch)).
Proof. intros Hb Hp. unfold merge_paths. by apply merge_fold_wf. Qed.

Lemma merge_keeps_keys_unique_witness :
  paths_wf (m_paths (merge_paths base_settings patch_A)).
Proof.
  apply merge_keeps_keys_unique.
  - split; [compute_done|]. repeat constructor; compute_done.
  - repeat constructor; compute_done.
Defined.

(** ** Merging into a document without paths *)

Lemma merge_fold_fresh patch st :
  NoDup (keys (m_paths st) ++ keys patch) →
  fold_left merge_path patch st
  = {| m_paths := m_paths st ++ patch;
       conflicts := conflicts st;
       merged_count := merged_count st + length (method_pairs patch) |}.
Proof.
  unfold keys. revert st.
  induction patch as [|[p methods] patch IH]; intros st Hnd.
  - simpl. rewrite app_nil_r, Nat.add_0_r. by destruct st.
  - cbn [fold_left]. rewrite fmap_cons in Hnd.
    assert (dict_get p (m_paths st) = None) as Hp.
    { apply dict_get_None. apply NoDup_app in Hnd as (_ & Hd & _).
      intros Hin. apply (Hd _ Hin). apply list_elem_of_here. }
    unfold merge_path at 2. simpl. rewrite Hp, dict_set_absent by done.
    rewrite IH; simpl.
    + rewrite <- app_assoc. simpl. f_equal.
      rewrite length_app, length_fmap. unfold keys. rewrite length_fmap. lia.
    + rewrite fmap_app. simpl. by rewrite <- app_assoc.
Qed.

(** X4. [merge_swagger_endpoints] on a base without a ['paths'] key, or with
    an empty one, saves exactly the paths of the additional file, in its
    order, reports no conflict and counts every method of the file. *)
Theorem merge_into_no_paths (sd ad out : document) (st : merge_state)
    (additional_paths : dict pathitem) :
  default [] (doc_paths sd) = [] →
  doc_paths ad = Some additional_paths → dict_wf additional_paths →
  merge_swagger_endpoints_doc sd ad = Some (out, st) →
  doc_paths out = Some additional_paths
  ∧ conflicts st = []
  ∧ merged_count st = length (method_pairs additional_paths).
Proof.
  intros Hsd Had Hwf Hm.
  apply merge_swagger_endpoints_doc_paths in Hm as (aps & Haps & -> & ->).
  rewrite Had in Haps. simplify_eq. rewrite Hsd. unfold merge_paths.
  by rewrite merge_fold_fresh.
Qed.

Lemma merge_into_no_paths_witness :
  ∃ out st, merge_swagger_endpoints_doc doc_no_paths doc_patch_A = Some (out, st)
    ∧ doc_paths out = Some patch_A
    ∧ conflicts st = []
    ∧ merged_count st = 2.
Proof.
  do 2 eexists. split; [reflexivity|].
  apply (merge_into_no_paths doc_no_paths doc_patch_A _ _ patch_A);
    [reflexivity|reflexivity|compute_done|reflexivity].
Defined.

(** ** The tags a merge declares *)

Lemma tag_names_app ts1 ts2 : tag_names (ts1 ++ ts2) = tag_names ts1 ∪ tag_names ts2.
Proof. unfold tag_names. by rewrite omap_app, list_to_set_app_L. Qed.

Lemma tag_names_new (new_tags : list (string * string)) n :
  Some n ∈ tag_names ((λ tag, TagDict (Some tag.1) tag.2) <$> new_tags)
  ↔ n ∈ new_tags.*1.
Proof.
  unfold tag_names. rewrite elem_of_list_to_set, list_elem_of_omap. split.
  - intros (t & Ht & Hn). apply list_elem_of_fmap in Ht as (tag & -> & Htag).
    simplify_eq. apply list_elem_of_fmap. by exists tag.
  - intros (tag & -> & Htag)%list_elem_of_fmap.
    exists (TagDict (Some tag.1) tag.2). split; [|done].
    apply list_elem_of_fmap. by exists tag.
Qed.

(** X5. After [merge_swagger_endpoints] has added its tags, every tag of its
    list is declared, and adding the list again changes nothing. *)
Theorem add_missing_tags_complete (new_tags : list (string * string))
    (ts : list tagval) :
  (∀ tag, tag ∈ new_tags → Some tag.1 ∈ tag_names (add_missing_tags new_tags ts))
  ∧ add_missing_tags new_tags (add_missing_tags new_tags ts) = add_missing_tags new_tags ts.
Proof.
  assert (∀ tag, tag ∈ new_tags →
            Some tag.1 ∈ tag_names (add_missing_tags new_tags ts)) as Hall.
  { intros tag Htag. unfold add_missing_tags. rewrite add_missing_fold, tag_names_app.
    destruct (decide (Some tag.1 ∈ tag_names ts)) as [Hin|Hnin]; [set_solver|].
    apply elem_of_union_r, tag_names_new, list_elem_of_fmap.
    exists tag. split; [done|]. by apply list_elem_of_filter. }
  split; [done|].
  unfold add_missing_tags at 1. rewrite add_missing_fold.
  rewrite filter_none; [by rewrite app_nil_r|].
  intros tag Htag Hnin. by apply Hnin, Hall.
Qed.

Lemma add_missing_tags_complete_witness :
  Some "Assets" ∈ tag_names (add_missing_tags core_tags [TagDict (Some "Settings") "Old settings text"]).
Proof.
  apply (proj1 (add_missing_tags_complete core_tags _) ("Assets", "Fixed assets and depreciation management - Manajemen aset tetap dan depresiasi")).
  compute_done.
Defined.

(** ** What a prune by path removes and counts *)

Lemma remove_endpoint_paths acc t : (remove_endpoint acc t).1 = dict_del t acc.1.
Proof.
  unfold remove_endpoint. destruct (dict_has t acc.1) eqn:Hhas; [done|].
  symmetry. by apply dict_del_absent, dict_has_false.
Qed.

Lemma remove_fold_paths (targets : list string) acc :
  (fold_left remove_endpoint targets acc).1 = filter (λ e, e.1 ∉ targets) acc.1.
Proof.
  revert acc. induction targets as [|t targets IH]; intros acc.
  - simpl. symmetry. apply filter_all. intros e _. apply not_elem_of_nil.
  - cbn [fold_left]. rewrite IH, remove_endpoint_paths. unfold dict_del.
    rewrite list_filter_filter. apply list_filter_iff. intros e.
    rewrite not_elem_of_cons. naive_solver.
Qed.

Lemma dict_get_filter_targets {V} (targets : list string) (d : dict V) k :
  dict_get k (filter (λ e, e.1 ∉ targets) d)
  = if decide (k ∈ targets) then None else dict_get k d.
Proof.
  induction d as [|[k0 v0] d IH]; [by case_decide|].
  rewrite filter_cons. simpl. destruct (decide (k0 ∉ targets)) as [HP|HP]; simpl.
  - rewrite IH. repeat case_decide; by subst.
  - rewrite IH. repeat case_decide; by subst.
Qed.

(** X6. A prune by path removes the targets and nothing else: what is left
    are the entries whose path is not a target, in order and unchanged, so
    that afterwards a target is no path of the document and every other path
    has the path item it had. *)
Theorem prune_removes_exactly_targets (targets : list string) (ps : dict pathitem) :
  (remove_endpoints targets ps).1 = filter (λ e, e.1 ∉ targets) ps
  ∧ ∀ p, dict_get p (remove_endpoints targets ps).1
         = if decide (p ∈ targets) then None else dict_get p ps.
Proof.
  assert ((remove_endpoints targets ps).1 = filter (λ e, e.1 ∉ targets) ps) as Heq.
  { unfold remove_endpoints. by rewrite remove_fold_paths. }
  split; [done|]. intros p. rewrite Heq.
  apply dict_get_filter_targets.
Qed.

Lemma keys_dict_del {V} (d : dict V) k :
  keys (dict_del k d) = filter (λ k', k' ≠ k) (keys d).
Proof.
  unfold keys, dict_del. induction d as [|[k0 v0] d IH]; [done|].
  rewrite fmap_cons, !filter_cons. simpl.
  destruct (decide (k0 ≠ k)); csimpl; by rewrite IH.
Qed.

Lemma dict_del_wf {V} (d : dict V) k : dict_wf d → dict_wf (dict_del k d).
Proof. unfold dict_wf. rewrite keys_dict_del. apply NoDup_filter. Qed.

Lemma dict_del_wf_length {V} (d : dict V) k :
  dict_wf d → k ∈ keys d → S (length (dict_del k d)) = length d.
Proof.
  unfold dict_wf, dict_del, keys. induction d as [|[k0 v0] d IH]; intros Hwf Hin.
  - by apply elem_of_nil in Hin.
  - rewrite fmap_cons in Hwf, Hin. apply NoDup_cons in Hwf as [Hk0 Hwf].
    rewrite filter_cons. simpl in *. destruct (decide (k0 ≠ k)) as [Hne|Heq].
    + simpl. f_equal. apply IH; [done|].
      apply elem_of_cons in Hin as [?|?]; [congruence|done].
    + apply dec_stable in Heq. subst k0. do 2 f_equal.
      apply filter_all. intros [k1 v1] Hin1 Hk1. simpl in Hk1. subst k1.
      apply Hk0. apply list_elem_of_fmap. by exists (k, v1).
Qed.

Lemma remove_fold_count (targets : list string) acc :
  dict_wf acc.1 →
  length (fold_left remove_endpoint targets acc).1 + (fold_left remove_endpoint targets acc).2
  = length acc.1 + acc.2.
Proof.
  revert acc. induction targets as [|t targets IH]; intros acc Hwf; [done|].
  cbn [fold_left]. rewrite IH.
  - unfold remove_endpoint. destruct (dict_has t acc.1) eqn:Hhas; [|done]. simpl.
    apply dict_has_true in Hhas. pose proof (dict_del_wf_length _ _ Hwf Hhas). lia.
  - rewrite remove_endpoint_paths. by apply dict_del_wf.
Qed.

(** X7. The number of removals a prune reports ([removed_count_yaml]) is the
    number of paths that left the document. *)
Theorem prune_count_is_paths_removed (targets : list string) (ps : dict pathitem) :
  dict_wf ps →
  length (remove_endpoints targets ps).1 + (remove_endpoints targets ps).2 = length ps.
Proof.
  intros Hwf. unfold remove_endpoints.
  rewrite (remove_fold_count targets (ps, 0)) by done. simpl. lia.
Qed.

Lemma prune_count_is_paths_removed_witness :
  length (remove_endpoints ["/api/v1/settings/accounting"; "/not/present"] paths_D').1
  + (remove_endpoints ["/api/v1/settings/accounting"; "/not/present"] paths_D').2 = 2.
Proof.
  apply (prune_count_is_paths_removed _ paths_D'). compute_done.
Defined.

(** ** What a prune run leaves on disk *)

Lemma set_paths_same d : set_paths (doc_paths d) d = d.
Proof. by destruct d. Qed.

Lemma cleanup_fold_doc (targets : list string) l removed :
  paths_v l = Aliased →
  swagger_data (fold_left cleanup_endpoint targets (l, removed)).1
  = prune_doc targets (swagger_data l).
Proof.
  revert l removed. induction targets as [|t targets IH]; intros l removed Ha.
  - simpl. unfold prune_doc. rewrite <- (set_paths_same (swagger_data l)) at 1.
    f_equal. destruct (doc_paths (swagger_data l)) as [ps|]; [|done]. simpl. f_equal.
    symmetry. apply filter_all. intros e _. apply not_elem_of_nil.
  - cbn [fold_left].
    assert (prune_doc (t :: targets) (swagger_data l)
            = prune_doc targets (swagger_data (del_path t l))) as ->.
    { unfold prune_doc, del_path. rewrite Ha. simpl. unfold set_paths. simpl. f_equal.
      destruct (doc_paths (swagger_data l)) as [ps|]; [|done]. simpl. f_equal.
      unfold dict_del. rewrite list_filter_filter. apply list_filter_iff.
      intros e. rewrite not_elem_of_cons. naive_solver. }
    unfold cleanup_endpoint. simpl.
    destruct (dict_has t (read_paths l)) eqn:Hhas.
    + apply IH. unfold del_path. by rewrite Ha.
    + rewrite IH by done. f_equal. unfold del_path. rewrite Ha.
      destruct l as [sd pv]. simpl in *. subst pv. f_equal.
      unfold read_paths in Hhas. simpl in Hhas. apply dict_has_false in Hhas.
      destruct sd as [[ps|] i ts ds r]; simpl in *; [|done].
      unfold set_paths. simpl. by rewrite dict_del_absent.
Qed.

Lemma cleanup_loop_doc (targets : list string) d :
  swagger_data (cleanup_loop targets (get_paths d)).1 = prune_doc targets d.
Proof.
  unfold cleanup_loop. destruct (doc_paths d) as [ps|] eqn:Hps.
  - rewrite cleanup_fold_doc; [done|]. unfold get_paths. by rewrite Hps.
  - rewrite cleanup_loop_absent.
    + simpl. unfold prune_doc. rewrite Hps. simpl. rewrite <- Hps. by rewrite set_paths_same.
    + intros t _. rewrite read_get_paths. by rewrite Hps.
Qed.

Lemma cleanup_fold_nothing (targets : list string) l removed :
  (fold_left cleanup_endpoint targets (l, removed)).2 = removed →
  (fold_left cleanup_endpoint targets (l, removed)).1 = l.
Proof.
  revert l removed. induction targets as [|t targets IH]; intros l removed Hr; [done|].
  cbn [fold_left] in *.
  destruct (cleanup_endpoint (l, removed) t) as [l1 r1] eqn:Hstep.
  unfold cleanup_endpoint in Hstep. simpl in Hstep.
  destruct (dict_has t (read_paths l)); injection Hstep as <- <-; [|by apply IH].
  destruct (cleanup_fold_measure targets (del_path t l) (removed ++ [t])) as (_ & Hlen & _).
  rewrite Hr, length_app in Hlen. simpl in Hlen. lia.
Qed.

Lemma prune_doc_absent (targets : list string) d t :
  t ∈ targets → dict_get t (default [] (doc_paths (prune_doc targets d))) = None.
Proof.
  intros Ht. unfold prune_doc. simpl. destruct (doc_paths d) as [ps|]; [|done]. simpl.
  rewrite dict_get_filter_targets. by rewrite decide_True.
Qed.

(** X8. A run of [cleanup_swagger] or of [cleanup_invalid_tax_accounts] that
    loads the document returns [True] and leaves in [swagger.json] the loaded
    document without the paths of its list, everything else as loaded. *)
Theorem cleanup_runs_leave_pruned_document (now : string) (fs : disk) (d : document) :
  load_json swagger_file fs = Some d →
  (cleanup_swagger now fs).2 = true
  ∧ load_json swagger_file (cleanup_swagger now fs).1 = Some (prune_doc invalid_endpoints d)
  ∧ (cleanup_invalid_tax_accounts now fs).2 = true
  ∧ load_json swagger_file (cleanup_invalid_tax_accounts now fs).1
    = Some (prune_doc invalid_tax_accounts_endpoints d).
Proof.
  intros Hload.
  assert (∀ targets, (cleanup_loop targets (get_paths d)).2 = [] →
            prune_doc targets d = d) as Hnone.
  { intros targets Hr. rewrite <- cleanup_loop_doc. unfold cleanup_loop in *.
    by rewrite cleanup_fold_nothing. }
  unfold cleanup_swagger, cleanup_invalid_tax_accounts. rewrite Hload.
  pose proof (cleanup_loop_doc invalid_endpoints d) as H1.
  pose proof (cleanup_loop_doc invalid_tax_accounts_endpoints d) as H2.
  pose proof (Hnone invalid_endpoints) as N1.
  pose proof (Hnone invalid_tax_accounts_endpoints) as N2.
  destruct (cleanup_loop invalid_endpoints (get_paths d)) as [l1 [|r1 rs1]];
    destruct (cleanup_loop invalid_tax_accounts_endpoints (get_paths d)) as [l2 [|r2 rs2]];
    simpl in *; rewrite ?N1, ?N2 by done; repeat split; try done;
    unfold load_json, dump_json; rewrite lookup_insert_eq; by rewrite ?H1, ?H2.
Qed.

Lemma cleanup_runs_leave_pruned_document_witness :
  load_json swagger_file (cleanup_swagger "20250131_120000" fs_accounting).1
  = Some doc_accounting_pruned.
Proof.
  apply (cleanup_runs_leave_pruned_document "20250131_120000" fs_accounting doc_accounting).
  reflexivity.
Defined.

(** X9. Such a run is safe to repeat: a second run, at any later time, on
    the directory the first run left finds nothing to remove, writes nothing
    and returns [True]. *)
Theorem cleanup_runs_repeat (now now' : string) (fs : disk) (d : document) :
  load_json swagger_file fs = Some d →
  cleanup_swagger now' (cleanup_swagger now fs).1 = ((cleanup_swagger now fs).1, true)
  ∧ cleanup_invalid_tax_accounts now' (cleanup_invalid_tax_accounts now fs).1
    = ((cleanup_invalid_tax_accounts now fs).1, true).
Proof.
  intros Hload.
  destruct (cleanup_runs_leave_pruned_document now fs d Hload) as (_ & H1 & _ & H2).
  split.
  - unfold cleanup_swagger at 1. rewrite H1, cleanup_loop_none; [done|].
    intros t Ht. by apply prune_doc_absent.
  - unfold cleanup_invalid_tax_accounts at 1. rewrite H2, cleanup_loop_none; [done|].
    intros t Ht. by apply prune_doc_absent.
Qed.

Lemma cleanup_runs_repeat_witness :
  cleanup_swagger "20250201_090000" (cleanup_swagger "20250131_120000" fs_accounting).1
  = ((cleanup_swagger "20250131_120000" fs_accounting).1, true).
Proof.
  apply (cleanup_runs_repeat "20250131_120000" "20250201_090000" fs_accounting doc_accounting).
  reflexivity.
Defined.

(** ** The prefix rewrite, once and again *)

Lemma new_key_not_wrong p :
  startswith (new_key wrong_prefix correct_prefix p) wrong_prefix = false.
Proof.
  unfold new_key. destruct (startswith p wrong_prefix) eqn:Hs; [|done].
  by rewrite replace_first_prefix.
Qed.

Lemma keys_rev {V} (d : dict V) k : k ∈ keys (rev d) ↔ k ∈ keys d.
Proof.
  unfold keys. rewrite !list_elem_of_fmap. split; intros (e & -> & He); exists e;
    (split; [done|]); apply list_elem_of_In; apply list_elem_of_In in He;
    by apply in_rev in He || apply in_rev.
Qed.

Lemma rewrite_paths_keys old new ps k :
  k ∈ keys (rewrite_paths old new ps).1 → ∃ p, p ∈ keys ps ∧ k = new_key old new p.
Proof.
  unfold rewrite_paths. rewrite rewrite_fold_paths. simpl.
  intros Hk. apply dict_get_is_Some in Hk. rewrite set_fold_get in Hk. simpl in Hk.
  destruct (dict_get k (rev (retarget old new <$> ps))) as [v|] eqn:Hv;
    [|by destruct Hk].
  apply keys_elem_of_get in Hv. apply (proj1 (keys_rev _ _)) in Hv. unfold keys in Hv.
  apply list_elem_of_fmap in Hv as (e' & -> & He').
  apply list_elem_of_fmap in He' as (e & -> & He).
  exists e.1. split; [|done]. unfold keys. apply list_elem_of_fmap. by exists e.
Qed.

Lemma rewrite_leaves_none ps :
  endpoints_to_fix wrong_prefix (rewrite_paths wrong_prefix correct_prefix ps).1 = [].
Proof.
  unfold endpoints_to_fix. apply filter_none. intros k Hk.
  apply rewrite_paths_keys in Hk as (p & _ & ->).
  by rewrite new_key_not_wrong.
Qed.

(** X10. After [fix_tax_accounts_endpoints] no path of the document starts
    with the wrong prefix, so the fix is safe to repeat: a second run on the
    directory the first run left writes nothing and returns [True]. *)
Theorem fix_tax_accounts_repeat (now now' : string) (fs : disk) (d : document) :
  load_json swagger_file fs = Some d →
  (∀ ps, endpoints_to_fix wrong_prefix (rewrite_paths wrong_prefix correct_prefix ps).1 = [])
  ∧ fix_tax_accounts_endpoints now' (fix_tax_accounts_endpoints now fs).1
    = ((fix_tax_accounts_endpoints now fs).1, true).
Proof.
  intros Hload. split; [apply rewrite_leaves_none|].
  unfold fix_tax_accounts_endpoints at 2 3. rewrite Hload.
  destruct (endpoints_to_fix wrong_prefix (default [] (doc_paths d))) eqn:Hfix; simpl.
  - unfold fix_tax_accounts_endpoints. by rewrite Hload, Hfix.
  - unfold fix_tax_accounts_endpoints, load_json, dump_json.
    rewrite lookup_insert_eq. simpl. by rewrite rewrite_leaves_none.
Qed.

Lemma fix_tax_accounts_repeat_witness :
  fix_tax_accounts_endpoints "20250201_090000"
    (fix_tax_accounts_endpoints "20250131_120000" {[ swagger_file := Json doc_C ]}).1
  = ((fix_tax_accounts_endpoints "20250131_120000" {[ swagger_file := Json doc_C ]}).1, true).
Proof.
  apply (fix_tax_accounts_repeat "20250131_120000" "20250201_090000" _ doc_C).
  reflexivity.
Defined.

(** X11. A run of [fix_tax_accounts_endpoints] that finds a path to fix
    returns [True], leaves in its backup file the document exactly as it was
    loaded and in [swagger.json] that document with the rewritten paths, and
    touches no other file. *)
Theorem fix_tax_accounts_run_effect (now : string) (fs : disk) (d : document) :
  load_json swagger_file fs = Some d →
  endpoints_to_fix wrong_prefix (default [] (doc_paths d)) ≠ [] →
  (fix_tax_accounts_endpoints now fs).2 = true
  ∧ (fix_tax_accounts_endpoints now fs).1
      !! (swagger_file +:+ ".backup_tax_accounts_fix_" +:+ now) = Some (Json d)
  ∧ (fix_tax_accounts_endpoints now fs).1 !! swagger_file
    = Some (Json (set_paths
                    (Some (rewrite_paths wrong_prefix correct_prefix
                             (default [] (doc_paths d))).1) d))
  ∧ ∀ f, f ≠ swagger_file → f ≠ swagger_file +:+ ".backup_tax_accounts_fix_" +:+ now →
         (fix_tax_accounts_endpoints now fs).1 !! f = fs !! f.
Proof.
  intros Hload Hfix.
  split; [|split; [by apply fix_tax_accounts_backup_is_prior|]];
    unfold fix_tax_accounts_endpoints; rewrite Hload;
    destruct (endpoints_to_fix wrong_prefix (default [] (doc_paths d))); try done.
  simpl. unfold dump_json. split; [apply lookup_insert_eq|].
  intros f Hf1 Hf2. by rewrite !lookup_insert_ne.
Qed.

Lemma fix_tax_accounts_run_effect_witness :
  (fix_tax_accounts_endpoints "20250131_120000" {[ swagger_file := Json doc_C ]}).1
    !! (swagger_file +:+ ".backup_tax_accounts_fix_20250131_120000") = Some (Json doc_C).
Proof.
  apply (fix_tax_accounts_run_effect "20250131_120000" {[ swagger_file := Json doc_C ]} doc_C).
  - reflexivity.
  - compute_done.
Defined.

(** ** The check loop and the fix loop of the settings fix *)

Lemma disallowed_fold (path : string) (correct_methods ks : list string)
    (acc : pathitem * list string) :
  (fold_left
     (λ acc method, if decide (upper method ∉ correct_methods)
                    then (dict_del method acc.1, acc.2 ++ [upper method +:+ " " +:+ path])
                    else acc) ks acc).2
  = acc.2 ++ ((λ m, upper m +:+ " " +:+ path)
              <$> filter (λ m, upper m ∉ correct_methods) ks).
Proof.
  revert acc. induction ks as [|k ks IH]; intros acc; [simpl; by rewrite app_nil_r|].
  cbn [fold_left]. rewrite IH, filter_cons.
  destruct (decide (upper k ∉ correct_methods)) as [Hk|Hk].
  - rewrite ?decide_True by done. rewrite fmap_cons. simpl. by rewrite <- app_assoc.
  - by rewrite ?decide_False by done.
Qed.

Lemma remove_incorrect_methods_lines (path : string) (correct_methods : list string)
    (path_data : pathitem) :
  (remove_incorrect_methods path correct_methods path_data).2
  = disallowed_lines path correct_methods path_data.
Proof. unfold remove_incorrect_methods. by rewrite disallowed_fold. Qed.

Lemma check_fold (path : string) (correct_methods ks incorrect : list string) :
  fold_left
    (λ acc method, if decide (upper method ∉ correct_methods)
                   then acc ++ [upper method +:+ " " +:+ path] else acc)
    ks incorrect
  = incorrect ++ ((λ m, upper m +:+ " " +:+ path)
                  <$> filter (λ m, upper m ∉ correct_methods) ks).
Proof.
  revert incorrect. induction ks as [|k ks IH]; intros incorrect;
    [simpl; by rewrite app_nil_r|].
  cbn [fold_left]. rewrite IH, filter_cons.
  destruct (decide (upper k ∉ correct_methods)) as [Hk|Hk].
  - rewrite ?decide_True by done. rewrite fmap_cons. by rewrite <- app_assoc.
  - by rewrite ?decide_False by done.
Qed.

(** What the check loop adds for one entry: the removals of the fix loop on a
    path of the table, one line for an unknown settings path. *)
Lemma find_incorrect_entry_split incorrect e :
  find_incorrect_entry incorrect e
  = incorrect ++ (if decide (unknown_settings_path e.1)
                  then ["UNKNOWN " +:+ e.1] else (fix_settings_entry e).2).
Proof.
  unfold find_incorrect_entry, fix_settings_entry, unknown_settings_path.
  destruct (startswith e.1 "/api/v1/settings").
  - destruct (dict_get e.1 correct_settings_endpoints) as [cm|].
    + rewrite decide_False by (intros [_ ?]; done). simpl.
      by rewrite check_fold, remove_incorrect_methods_lines.
    + by rewrite decide_True.
  - rewrite decide_False by (intros [? _]; done). simpl. by rewrite app_nil_r.
Qed.

Lemma find_incorrect_fold ps incorrect :
  fold_left find_incorrect_entry ps incorrect
  = incorrect ++ concat ((λ e, if decide (unknown_settings_path e.1)
                               then ["UNKNOWN " +:+ e.1]
                               else (fix_settings_entry e).2) <$> ps).
Proof.
  revert incorrect. induction ps as [|e ps IH]; intros incorrect;
    [simpl; by rewrite app_nil_r|].
  cbn [fold_left]. rewrite IH, find_incorrect_entry_split, fmap_cons. simpl.
  by rewrite <- app_assoc.
Qed.

Lemma fix_settings_entry_unknown e :
  unknown_settings_path e.1 → (fix_settings_entry e).2 = [].
Proof.
  intros [Hs Hn]. unfold fix_settings_entry. by rewrite Hs, Hn.
Qed.

(** X12. What [fix_settings_endpoints] lists as incorrect is what its fix
    loop removes, path by path in document order, and one UNKNOWN line for
    every settings path that its table does not have; the fix loop removes
    nothing on those.  So the two lists have the same length up to the
    unknown paths, and are the same list when there is none. *)
Theorem check_and_fix_agree (ps : dict pathitem) :
  find_incorrect ps
  = concat ((λ e, if decide (unknown_settings_path e.1)
                  then ["UNKNOWN " +:+ e.1]
                  else (fix_settings_entry e).2) <$> ps)
  ∧ length (find_incorrect ps)
    = length (fix_settings_paths ps).2 + length (filter unknown_settings_path (keys ps))
  ∧ (filter unknown_settings_path (keys ps) = [] →
     find_incorrect ps = (fix_settings_paths ps).2).
Proof.
  assert (find_incorrect ps
          = concat ((λ e, if decide (unknown_settings_path e.1)
                          then ["UNKNOWN " +:+ e.1]
                          else (fix_settings_entry e).2) <$> ps)) as Heq.
  { unfold find_incorrect. by rewrite find_incorrect_fold. }
  split; [done|]. rewrite Heq. unfold fix_settings_paths, keys. simpl. clear Heq.
  split.
  - induction ps as [|e ps IH]; [done|].
    rewrite !fmap_cons, filter_cons. simpl. rewrite !length_app, IH.
    destruct (decide (unknown_settings_path e.1)) as [Hu|Hu]; simpl.
    + rewrite fix_settings_entry_unknown by done. simpl. lia.
    + lia.
  - induction ps as [|e ps IH]; [done|].
    rewrite !fmap_cons, filter_cons. simpl.
    destruct (decide (unknown_settings_path e.1)) as [Hu|Hu]; [done|].
    intros Hnone. by rewrite IH.
Qed.

Lemma check_and_fix_agree_witness :
  find_incorrect paths_D = ["GET /api/v1/settings/company"]
  ∧ find_incorrect paths_D = (fix_settings_paths paths_D).2.
Proof.
  destruct (check_and_fix_agree paths_D) as (_ & _ & H).
  rewrite H; [split; reflexivity|]. compute_done.
Defined.

(** ** What the settings fix keeps, and a second fix *)

Lemma dict_get_allowed (correct_methods : list string) (path_data : pathitem) m :
  dict_get m (allowed_methods correct_methods path_data)
  = if decide (upper m ∈ correct_methods) then dict_get m path_data else None.
Proof.
  unfold allowed_methods. induction path_data as [|[k v] path_data IH]; [by case_decide|].
  rewrite filter_cons. simpl.
  destruct (decide (upper k ∈ correct_methods)) as [Hk|Hk]; simpl; rewrite IH;
    repeat case_decide; by subst.
Qed.

Lemma fixed_item_get e m :
  dict_get m (fixed_item e)
  = if startswith e.1 "/api/v1/settings" then
      match dict_get e.1 correct_settings_endpoints with
      | Some correct_methods =>
          if decide (upper m ∈ correct_methods) then dict_get m e.2 else None
      | None => dict_get m e.2
      end
    else dict_get m e.2.
Proof.
  unfold fixed_item. destruct (startswith e.1 "/api/v1/settings"); [|done].
  destruct (dict_get e.1 correct_settings_endpoints); [|done].
  apply dict_get_allowed.
Qed.

Lemma fixed_paths_get ps p :
  dict_get p ((λ e, (e.1, fixed_item e)) <$> ps)
  = (λ item, fixed_item (p, item)) <$> dict_get p ps.
Proof.
  induction ps as [|[k v] ps IH]; [done|].
  rewrite fmap_cons. simpl. case_decide; [by subst|done].
Qed.

(** X13. After the fix loop of [fix_settings_endpoints], a method with an
    ASCII name of a path of the table is there, with the operation it had,
    exactly when its upper-case name is allowed for that path; every such
    method of every other path is as it was.  (For a name with a character
    outside ASCII the test of the script is [str.upper], which [upper] is
    not.) *)
Theorem fix_settings_keeps_allowed (ps : dict pathitem) (p m : string) :
  ascii_only m →
  lookup2 (fix_settings_paths ps).1 p m
  = if startswith p "/api/v1/settings" then
      match dict_get p correct_settings_endpoints with
      | Some correct_methods =>
          if decide (upper m ∈ correct_methods) then lookup2 ps p m else None
      | None => lookup2 ps p m
      end
    else lookup2 ps p m.
Proof.
  intros _. rewrite fix_settings_paths_items. unfold lookup2.
  rewrite fixed_paths_get.
  destruct (dict_get p ps) as [item|]; cbn -[dict_get startswith].
  - by rewrite fixed_item_get.
  - destruct (startswith p "/api/v1/settings"); [|done].
    destruct (dict_get p correct_settings_endpoints); [|done]. by case_decide.
Qed.

(** Scenario D: [get] is not allowed on [/api/v1/settings/company] and is
    gone, [put] is allowed on [/api/v1/settings] and stays. *)
Lemma fix_settings_keeps_allowed_witness :
  lookup2 (fix_settings_paths paths_D).1 "/api/v1/settings/company" "get" = None
  ∧ lookup2 (fix_settings_paths paths_D).1 "/api/v1/settings" "put" = Some op2.
Proof.
  split.
  - rewrite (fix_settings_keeps_allowed paths_D "/api/v1/settings/company" "get");
      [reflexivity|].
    unfold ascii_only. cbn [list_ascii_of_string]. repeat constructor.
  - rewrite (fix_settings_keeps_allowed paths_D "/api/v1/settings" "put");
      [reflexivity|].
    unfold ascii_only. cbn [list_ascii_of_string]. repeat constructor.
Defined.

Lemma allowed_methods_idem (correct_methods : list string) (path_data : pathitem) :
  allowed_methods correct_methods (allowed_methods correct_methods path_data)
  = allowed_methods correct_methods path_data.
Proof.
  unfold allowed_methods. rewrite list_filter_filter.
  apply list_filter_iff. naive_solver.
Qed.

Lemma allowed_methods_no_lines (path : string) (correct_methods : list string)
    (path_data : pathitem) :
  disallowed_lines path correct_methods (allowed_methods correct_methods path_data) = [].
Proof.
  unfold disallowed_lines. rewrite filter_none; [done|].
  intros m Hm Hbad. unfold keys, allowed_methods in Hm.
  apply list_elem_of_fmap in Hm as ([k v] & -> & Hin).
  apply list_elem_of_filter in Hin as [Hok _]. done.
Qed.

Lemma fix_settings_entry_again e :
  fix_settings_entry (e.1, fixed_item e) = ((e.1, fixed_item e), []).
Proof.
  unfold fix_settings_entry, fixed_item. cbn [fst snd].
  destruct (startswith e.1 "/api/v1/settings"); [|done].
  destruct (dict_get e.1 correct_settings_endpoints) as [cm|]; [|done].
  cbn [fst snd].
  rewrite remove_incorrect_methods_lines, remove_incorrect_methods_allowed.
  by rewrite allowed_methods_idem, allowed_methods_no_lines.
Qed.

Lemma fix_settings_paths_again ps :
  fix_settings_paths (fix_settings_paths ps).1 = ((fix_settings_paths ps).1, []).
Proof.
  rewrite fix_settings_paths_items. unfold fix_settings_paths. f_equal.
  - rewrite <- list_fmap_compose. apply list_fmap_ext. intros _ e _. simpl.
    by rewrite fix_settings_entry_again.
  - rewrite <- list_fmap_compose. induction ps as [|e ps IH]; [done|].
    rewrite fmap_cons. simpl. by rewrite fix_settings_entry_again, IH.
Qed.

(** X14. The settings fix is safe to repeat: the fix loop removes nothing
    from its own result, and a run on the document that a run has saved
    either writes nothing or saves the same document again (the latter when
    an unknown settings path keeps the check loop from being empty). *)
Theorem fix_settings_repeat (d d' : document) :
  fix_settings_endpoints_doc d = Some d' →
  fix_settings_paths (default [] (doc_paths d')) = (default [] (doc_paths d'), [])
  ∧ (fix_settings_endpoints_doc d' = None ∨ fix_settings_endpoints_doc d' = Some d').
Proof.
  unfold fix_settings_endpoints_doc at 1.
  destruct (find_incorrect (default [] (doc_paths d))) eqn:Hinc; [done|].
  intros [= <-].
  destruct (doc_paths d) as [ps|] eqn:Hps; [|done].
  set (d' := set_paths _ d).
  assert (doc_paths d' = Some (fix_settings_paths ps).1) as Hd' by done.
  split; [rewrite Hd'; apply fix_settings_paths_again|].
  unfold fix_settings_endpoints_doc. rewrite Hd'.
  cbn [default from_option fmap option_fmap option_map]. unfold id.
  destruct (find_incorrect (fix_settings_paths ps).1); [by left|right].
  rewrite fix_settings_paths_again. cbn [fst]. by rewrite <- Hd', set_paths_same.
Qed.

Lemma fix_settings_repeat_witness :
  ∃ d', fix_settings_endpoints_doc doc_D = Some d'
    ∧ fix_settings_endpoints_doc d' = None.
Proof.
  eexists. split; [reflexivity|].
  destruct (fix_settings_repeat doc_D _ eq_refl) as [_ [H|H]]; [exact H|].
  exfalso. revert H. by vm_compute.
Defined.

(** ** The tag repair of fix_swagger_display.py, run again *)

Lemma ensure_tag_again tag v :
  ensure_tag tag (ensure_tag tag v).1 = ((ensure_tag tag v).1, false).
Proof.
  destruct v as [[ts|] rest|o]; cbn [ensure_tag fst]; [| |done].
  - destruct (decide (tag ∉ ts)) as [Hn|Hin].
    + destruct ts as [|t ts]; cbn [ensure_tag fst].
      * rewrite decide_False; [done|]. intros Hc. apply Hc, list_elem_of_here.
      * rewrite decide_False; [done|]. intros Hc. apply Hc.
        apply elem_of_app. right. apply list_elem_of_here.
    + cbn [ensure_tag fst]. rewrite decide_False; done.
  - rewrite decide_False; [done|]. intros Hc. apply Hc, list_elem_of_here.
Qed.

Lemma fix_tags_item_again path methods :
  fix_tags_item path (fix_tags_item path methods) = fix_tags_item path methods.
Proof.
  unfold fix_tags_item. destruct (inferred_tag path) as [tag|]; [|done].
  rewrite <- list_fmap_compose. apply list_fmap_ext. intros _ md _.
  unfold compose. cbn [fst snd]. by rewrite ensure_tag_again.
Qed.

(** X15. Running the tag loop of fix_swagger_display (lines 92-119) on paths
    it has already been run on changes nothing, and both of its counters,
    assets_endpoints_fixed and settings_endpoints_fixed, stay at 0. *)
Theorem tag_repair_repeat (ps : dict pathitem) :
  fix_tags_paths (fix_tags_paths ps) = fix_tags_paths ps
  ∧ ∀ tag, count_fixed tag (fix_tags_paths ps) = 0.
Proof.
  split.
  - unfold fix_tags_paths. rewrite <- list_fmap_compose.
    apply list_fmap_ext. intros _ e _. unfold compose. cbn [fst snd].
    by rewrite fix_tags_item_again.
  - intros tag. unfold count_fixed, fix_tags_paths.
    induction ps as [|e ps IH]; [done|].
    rewrite !fmap_cons. cbn [sum_list sum_list_with fst snd].
    rewrite IH, Nat.add_0_r.
    destruct (decide (inferred_tag e.1 = Some tag)) as [Ht|]; [|done].
    unfold fix_tags_item. rewrite Ht.
    induction (e.2) as [|md l IHl]; [done|].
    rewrite fmap_cons, filter_cons. cbn [fst snd].
    rewrite ensure_tag_again. cbn [snd].
    rewrite decide_False by done. exact IHl.
Qed.

(** ** fix_swagger_display.py against verify_swagger.py *)

Lemma Forall_dict_set {V} (P : string * V → Prop) k v (d : dict V) :
  Forall P d → P (k, v) → Forall P (dict_set k v d).
Proof.
  intros Hd Hkv. induction d as [|[k0 v0] d IH]; cbn [dict_set].
  - by constructor.
  - apply Forall_cons in Hd as [H0 Hd]. case_decide.
    + subst. by constructor.
    + constructor; auto.
Qed.

Lemma ensure_tag_tagged tag v :
  match (ensure_tag tag v).1 with
  | OpDict method_tags _ => tag ∈ default [] method_tags
  | OpOther _ => True
  end.
Proof.
  destruct v as [[ts|] rest|o]; cbn [ensure_tag fst]; [| |done].
  - destruct (decide (tag ∉ ts)) as [Hn|Hin].
    + destruct ts as [|t ts]; cbn [fst default from_option].
      * apply list_elem_of_here.
      * unfold id. apply elem_of_app. right. apply list_elem_of_here.
    + cbn [fst default from_option]. unfold id.
      by destruct (decide (tag ∈ ts)).
  - cbn [default from_option]. apply list_elem_of_here.
Qed.

Lemma fix_tags_entry_tagged (e : string * pathitem) :
  ¬ both_modules e.1 → entry_tagged (e.1, fix_tags_item e.1 e.2).
Proof.
  intros Hnb. unfold entry_tagged, fix_tags_item, inferred_tag. cbn [fst snd].
  destruct (contains "/assets" e.1) eqn:Ha.
  - apply Forall_fmap, Forall_forall. intros md _. unfold compose. cbn [fst snd].
    pose proof (ensure_tag_tagged "Assets" md.2) as Ht. unfold tagged_for.
    destruct (ensure_tag "Assets" md.2).1; [|done]. split; [done|].
    intros Hs. destruct Hnb. by split.
  - destruct (contains "/settings" e.1) eqn:Hs.
    + apply Forall_fmap, Forall_forall. intros md _. unfold compose. cbn [fst snd].
      pose proof (ensure_tag_tagged "Settings" md.2) as Ht. unfold tagged_for.
      destruct (ensure_tag "Settings" md.2).1; [|done]. split; [congruence|done].
    + apply Forall_forall. intros md _. unfold tagged_for.
      destruct md.2; [|done]. split; congruence.
Qed.

Lemma fix_tags_paths_tagged (ps : dict pathitem) :
  Forall (λ p, ¬ both_modules p) (keys ps) →
  Forall entry_tagged (fix_tags_paths ps).
Proof.
  unfold keys, fix_tags_paths. intros H.
  induction ps as [|e ps IH]; [constructor|].
  rewrite fmap_cons in H. apply Forall_cons in H as [He H].
  rewrite fmap_cons. constructor; [by apply fix_tags_entry_tagged|auto].
Qed.

Lemma add_missing_method_tagged path methods (acc : pathitem * nat) :
  Forall (λ md, tagged_for path md.2) methods →
  Forall (λ md, tagged_for path md.2) acc.1 →
  Forall (λ md, tagged_for path md.2) (fold_left add_missing_method methods acc).1.
Proof.
  revert acc. induction methods as [|md methods IH]; intros acc Hm Hacc; [done|].
  apply Forall_cons in Hm as [Hmd Hm]. cbn [fold_left]. apply IH; [done|].
  unfold add_missing_method. destruct (dict_has md.1 acc.1); [done|].
  cbn [fst]. by apply Forall_dict_set.
Qed.

Lemma add_missing_path_tagged (acc : dict pathitem * nat) e :
  entry_tagged e → Forall entry_tagged acc.1 →
  Forall entry_tagged (add_missing_path acc e).1.
Proof.
  intros He Hacc. unfold add_missing_path.
  destruct (dict_get e.1 acc.1) as [item|] eqn:Hg; cbn [fst].
  - apply Forall_dict_set; [done|]. unfold entry_tagged. cbn [fst snd].
    apply add_missing_method_tagged; [exact He|]. cbn [fst].
    apply dict_get_Some_elem in Hg.
    rewrite Forall_forall in Hacc. exact (Hacc _ Hg).
  - apply Forall_dict_set; [done|]. by destruct e.
Qed.

Lemma add_missing_fold_tagged tbl (acc : dict pathitem * nat) :
  Forall entry_tagged tbl → Forall entry_tagged acc.1 →
  Forall entry_tagged (fold_left add_missing_path tbl acc).1.
Proof.
  revert acc. induction tbl as [|e tbl IH]; intros acc Ht Hacc; [done|].
  apply Forall_cons in Ht as [He Ht]. cbn [fold_left].
  apply IH; [done|]. by apply add_missing_path_tagged.
Qed.

Lemma add_missing_path_keys (acc : dict pathitem * nat) e k :
  k ∈ keys acc.1 ∨ k = e.1 → k ∈ keys (add_missing_path acc e).1.
Proof.
  intros Hk.
  assert (∀ v, k ∈ keys (dict_set e.1 v acc.1)) as Hset.
  { intros v. rewrite keys_dict_set.
    destruct (decide (e.1 ∈ keys acc.1)) as [Hin|Hnin].
    - destruct Hk as [?| ->]; done.
    - apply elem_of_app. destruct Hk as [?| ->]; [by left|right].
      apply list_elem_of_here. }
  unfold add_missing_path. destruct (dict_get e.1 acc.1); cbn [fst]; apply Hset.
Qed.

Lemma add_missing_fold_keys tbl (acc : dict pathitem * nat) k :
  k ∈ keys acc.1 ∨ k ∈ keys tbl → k ∈ keys (fold_left add_missing_path tbl acc).1.
Proof.
  revert acc. induction tbl as [|e tbl IH]; intros acc Hk.
  - destruct Hk as [?|Hk]; [done|]. by apply elem_of_nil in Hk.
  - cbn [fold_left]. apply IH. unfold keys in Hk |- *. rewrite fmap_cons in Hk.
    destruct Hk as [Hk|Hk].
    + left. apply add_missing_path_keys. by left.
    + apply elem_of_cons in Hk as [->|Hk]; [|by right].
      left. apply add_missing_path_keys. by right.
Qed.

Lemma tables_tagged :
  Forall entry_tagged assets_endpoints_to_add
  ∧ Forall entry_tagged settings_endpoints_to_add.
Proof.
  split;
    repeat (first [apply List.Forall_nil | apply List.Forall_cons]);
    unfold entry_tagged; cbn [fst snd];
    repeat (first [apply List.Forall_nil | apply List.Forall_cons]);
    unfold tagged_for; cbn [fst snd default from_option]; unfold id;
    (split; intros Hc;
       [try (vm_compute in Hc; discriminate Hc)
       |try (vm_compute in Hc; discriminate Hc)]);
    apply list_elem_of_here.
Qed.

Lemma without_tag_nil tag (select : string → bool) pths (ps : dict pathitem) :
  (∀ path v, select path = true → tagged_for path v →
     match v with OpDict method_tags _ => tag ∈ default [] method_tags | OpOther _ => True end) →
  Forall entry_tagged ps →
  Forall (λ p, select p = true) pths →
  without_tag tag pths ps = [].
Proof.
  intros Hsel Hps Hp. unfold without_tag.
  induction pths as [|path pths IH]; [done|].
  apply Forall_cons in Hp as [Hpath Hp]. cbn [flat_map]. rewrite (IH Hp), app_nil_r.
  destruct (dict_get path ps) as [item|] eqn:Hg; [|done].
  apply dict_get_Some_elem in Hg. rewrite Forall_forall in Hps.
  pose proof (Hps _ Hg) as Hitem. unfold entry_tagged in Hitem.
  cbn [fst snd default from_option] in Hitem |- *. unfold id.
  clear Hg. induction Hitem as [|md item' Hmd _ IHi]; [done|].
  cbn [flat_map]. rewrite IHi, app_nil_r.
  pose proof (Hsel path md.2 Hpath Hmd) as Ht.
  destruct md.2; [|done].
  destruct (decide _) as [Hn|_]; [|done]. exfalso. exact (Hn Ht).
Qed.

Lemma filter_keys_selected (select : string → bool) (l : list string) :
  Forall (λ p, select p = true) (filter (λ p, select p = true) l).
Proof. apply Forall_forall. intros p [Hp _]%list_elem_of_filter. exact Hp. Qed.

Lemma filter_keys_nonempty (select : string → bool) (l : list string) k :
  k ∈ l → select k = true → (0 < length (filter (λ p, select p = true) l))%nat.
Proof.
  intros Hk Hs.
  assert (k ∈ filter (λ p, select p = true) l) as Hin
    by (apply list_elem_of_filter; by split).
  destruct (filter (λ p, select p = true) l); [by apply elem_of_nil in Hin|].
  cbn [length]. lia.
Qed.

Lemma display_tag_names_app ts ts' :
  display_tag_names (ts ++ ts') = display_tag_names ts ++ display_tag_names ts'.
Proof. unfold display_tag_names. apply omap_app. Qed.

Lemma add_display_tags_names ts :
  "Assets" ∈ display_tag_names (add_display_tags ts)
  ∧ "Settings" ∈ display_tag_names (add_display_tags ts).
Proof.
  unfold add_display_tags. cbv zeta.
  destruct (decide ("Assets" ∉ (list_to_set (display_tag_names ts) : gset string)))
    as [Ha|Ha];
  destruct (decide ("Settings" ∉ (list_to_set (display_tag_names ts) : gset string)))
    as [Hs|Hs];
  rewrite ?display_tag_names_app, ?elem_of_app;
  try (apply dec_stable in Ha; apply elem_of_list_to_set in Ha);
  try (apply dec_stable in Hs; apply elem_of_list_to_set in Hs);
  split; auto; try (right; apply list_elem_of_here);
  left; right; apply list_elem_of_here.
Qed.

(** X16. What fix_swagger_display saves passes verify_swagger: when the
    document has a 'paths' object and none of its paths contains both
    '/assets' and '/settings', verify_swagger returns True on the saved
    document.  (On such a path the tag loop only adds 'Assets', and
    verify_swagger also asks for 'Settings'.) *)
Theorem fix_display_then_verify (d : document) (ps : dict pathitem) :
  doc_paths d = Some ps →
  Forall (λ p, ¬ both_modules p) (keys ps) →
  verify_swagger_doc (fix_swagger_display_doc d).1 = true.
Proof.
  intros Hp Hnb. unfold verify_swagger_doc, fix_swagger_display_doc.
  cbn [fst doc_paths doc_tags]. rewrite Hp. cbn [default from_option]. unfold id.
  cbv zeta.
  set (r := add_missing_endpoints (fix_tags_paths ps)).
  assert (Forall entry_tagged r.1) as Htag.
  { unfold r, add_missing_endpoints. destruct tables_tagged as [Ha Hs].
    apply add_missing_fold_tagged; [done|].
    apply add_missing_fold_tagged; [done|].
    by apply fix_tags_paths_tagged. }
  assert ("/api/v1/assets" ∈ keys r.1) as Hka.
  { unfold r, add_missing_endpoints. apply add_missing_fold_keys. left.
    apply add_missing_fold_keys. right. apply list_elem_of_here. }
  assert ("/api/v1/settings" ∈ keys r.1) as Hks.
  { unfold r, add_missing_endpoints. apply add_missing_fold_keys. right.
    apply list_elem_of_here. }
  destruct (add_display_tags_names (default [] (doc_tags d))) as [Hna Hns].
  unfold default, id in Hna, Hns.
  rewrite (without_tag_nil "Assets" (contains "/assets")); cycle 1.
  { intros path v Hsel Hv. destruct v; [|done]. by apply Hv. }
  { exact Htag. }
  { apply filter_keys_selected. }
  rewrite (without_tag_nil "Settings" (contains "/settings")); cycle 1.
  { intros path v Hsel Hv. destruct v; [|done]. by apply Hv. }
  { exact Htag. }
  { apply filter_keys_selected. }
  rewrite !andb_true_iff, !bool_decide_eq_true.
  repeat split; try done.
  - by apply (filter_keys_nonempty (contains "/assets") _ "/api/v1/assets").
  - by apply (filter_keys_nonempty (contains "/settings") _ "/api/v1/settings").
Qed.

Lemma fix_display_then_verify_witness :
  verify_swagger_doc (fix_swagger_display_doc doc_settings).1 = true.
Proof.
  apply (fix_display_then_verify doc_settings (default [] (doc_paths doc_settings)));
    [reflexivity|].
  repeat constructor; intros [Ha Hs]; vm_compute in Ha; discriminate Ha.
Defined.

(** A path of both modules: the saved document does not pass. *)
Example fix_display_both_modules :
  both_modules "/api/v1/settings/assets"
  ∧ verify_swagger_doc (fix_swagger_display_doc doc_both).1 = false.
Proof. split; [split|]; vm_compute; reflexivity. Qed.

(** X17. Without a 'paths' entry in the document, fix_swagger_display works
    on a dictionary of its own: it counts the seven operations of its tables
    as added, the document it saves still has no 'paths', and verify_swagger
    returns False on it. *)
Theorem fix_display_without_paths (d : document) :
  doc_paths d = None →
  (fix_swagger_display_doc d).2 = 7
  ∧ doc_paths (fix_swagger_display_doc d).1 = None
  ∧ verify_swagger_doc (fix_swagger_display_doc d).1 = false.
Proof.
  intros Hp. unfold verify_swagger_doc, fix_swagger_display_doc.
  cbn [fst snd doc_paths doc_tags]. rewrite Hp. repeat split.
Qed.

Lemma fix_display_without_paths_witness :
  (fix_swagger_display_doc doc_no_paths).2 = 7
  ∧ doc_paths (fix_swagger_display_doc doc_no_paths).1 = None
  ∧ verify_swagger_doc (fix_swagger_display_doc doc_no_paths).1 = false.
Proof. apply (fix_display_without_paths doc_no_paths). reflexivity. Defined.

(** ** The add-missing loops of fix_swagger_display.py and the merge loop *)

Lemma keys_dict_set_other {V} k k' (v : V) (d : dict V) :
  k' ≠ k → k' ∈ keys (dict_set k v d) ↔ k' ∈ keys d.
Proof.
  intros Hne. rewrite keys_dict_set. destruct (decide (k ∈ keys d)); [done|].
  rewrite elem_of_app, list_elem_of_singleton. naive_solver.
Qed.

Lemma add_missing_fold_is_new (existing : gset string) methods (acc : pathitem * nat) :
  NoDup (keys methods) →
  (∀ k, k ∈ keys methods → k ∈ keys acc.1 ↔ k ∈ existing) →
  fold_left add_missing_method methods acc
  = fold_left (add_new_method existing) methods acc.
Proof.
  revert acc. induction methods as [|md methods IH]; intros acc Hnd Hk; [done|].
  unfold keys in Hnd, Hk. rewrite fmap_cons in Hnd, Hk.
  apply NoDup_cons in Hnd as [Hfresh Hnd]. cbn [fold_left].
  assert (add_missing_method acc md = add_new_method existing acc md) as ->.
  { unfold add_missing_method, add_new_method.
    pose proof (Hk md.1 (list_elem_of_here _ _)) as Hmd.
    destruct (dict_has md.1 acc.1) eqn:Hh.
    - apply dict_has_true in Hh. rewrite decide_False; [done|].
      intros Hc. apply Hc. by apply Hmd.
    - rewrite decide_True; [done|]. intros Hin. apply Hmd in Hin.
      apply dict_has_true in Hin. congruence. }
  apply IH; [exact Hnd|]. intros k Hin.
  rewrite <- (Hk k) by (by apply list_elem_of_further).
  unfold add_new_method. destruct (decide (md.1 ∉ existing)); [|done].
  cbn [fst]. apply keys_dict_set_other. intros ->. by apply Hfresh.
Qed.

Lemma add_missing_fold_is_all methods (acc : pathitem * nat) :
  NoDup (keys methods) →
  (∀ k, k ∈ keys methods → k ∉ keys acc.1) →
  fold_left add_missing_method methods acc = fold_left add_method methods acc.
Proof.
  revert acc. induction methods as [|md methods IH]; intros acc Hnd Hk; [done|].
  unfold keys in Hnd, Hk. rewrite fmap_cons in Hnd, Hk.
  apply NoDup_cons in Hnd as [Hfresh Hnd]. cbn [fold_left].
  assert (add_missing_method acc md = add_method acc md) as ->.
  { unfold add_missing_method, add_method.
    destruct (dict_has md.1 acc.1) eqn:Hh; [|done].
    apply dict_has_true in Hh. by destruct (Hk md.1 (list_elem_of_here _ _)). }
  apply IH; [exact Hnd|]. intros k Hin. unfold add_method. cbn [fst].
  rewrite keys_dict_set_other; [by apply Hk, list_elem_of_further|].
  intros ->. by apply Hfresh.
Qed.

Lemma add_missing_path_is_merge st e :
  dict_wf e.2 →
  add_missing_path (m_paths st, merged_count st) e
  = (m_paths (merge_path st e), merged_count (merge_path st e)).
Proof.
  intros Hwf. unfold add_missing_path, merge_path. cbn [fst snd].
  destruct (dict_get e.1 (m_paths st)) as [item|]; [|done]. cbv zeta.
  destruct (decide (_ ≠ _)) as [Hc|Hc]; cbn [m_paths merged_count].
  - unfold add_new_methods.
    rewrite (add_missing_fold_is_new (list_to_set (keys item))); [done|exact Hwf|].
    intros k _. cbn [fst]. by rewrite elem_of_list_to_set.
  - unfold add_all_methods.
    rewrite add_missing_fold_is_all; [done|exact Hwf|].
    intros k Hk Hin. cbn [fst] in Hin. apply Hc.
    intros Hempty.
    assert (k ∈ (list_to_set (keys item) : gset string) ∩ list_to_set (keys e.2)) as Hx
      by (apply elem_of_intersection; by rewrite !elem_of_list_to_set).
    rewrite Hempty in Hx. by apply elem_of_empty in Hx.
Qed.

Lemma add_missing_fold_is_merge tbl st :
  Forall (λ e, dict_wf e.2) tbl →
  fold_left add_missing_path tbl (m_paths st, merged_count st)
  = (m_paths (fold_left merge_path tbl st), merged_count (fold_left merge_path tbl st)).
Proof.
  revert st. induction tbl as [|e tbl IH]; intros st Hwf; [done|].
  apply Forall_cons in Hwf as [He Hwf]. cbn [fold_left].
  rewrite add_missing_path_is_merge by done. by apply IH.
Qed.

(** X18. The two add-missing loops of fix_swagger_display (lines 322-347)
    compute what the merge loop of merge_swagger_endpoints computes with the
    two literal tables, one after the other, as the patch: the same paths
    and, as added_count, the same merged_count.  So they too add only what
    is missing and overwrite nothing. *)
Theorem add_missing_endpoints_is_merge (ps : dict pathitem) :
  add_missing_endpoints ps
  = (m_paths (merge_paths ps (assets_endpoints_to_add ++ settings_endpoints_to_add)),
     merged_count (merge_paths ps (assets_endpoints_to_add ++ settings_endpoints_to_add))).
Proof.
  unfold add_missing_endpoints, merge_paths. rewrite <- fold_left_app.
  apply (add_missing_fold_is_merge _
           {| m_paths := ps; conflicts := []; merged_count := 0 |}).
  unfold dict_wf. repeat (first [apply List.Forall_nil | apply List.Forall_cons]);
    compute_done.
Qed.

(** ** The merge of add_invoice_types_to_settings.py *)

Lemma dict_get_of_elem {V} (d : dict V) k v :
  dict_wf d → (k, v) ∈ d → dict_get k d = Some v.
Proof.
  unfold dict_wf, keys. induction d as [|[k0 v0] d IH]; intros Hnd Hin.
  - by apply elem_of_nil in Hin.
  - rewrite fmap_cons in Hnd. apply NoDup_cons in Hnd as [Hk0 Hnd].
    cbn [dict_get]. apply elem_of_cons in Hin as [Heq|Hin].
    + injection Heq as -> ->. by rewrite decide_True.
    + rewrite decide_False; [by apply IH|]. intros ->. apply Hk0.
      apply list_elem_of_fmap. by exists (k, v).
Qed.

Lemma set_methods_get (methods item : pathitem) m :
  dict_get m (fold_left (λ it md, dict_set md.1 md.2 it) methods item)
  = match dict_get m (rev methods) with
    | Some v => Some v
    | None => dict_get m item
    end.
Proof.
  revert item. induction methods as [|[k v] methods IH]; intros item; [done|].
  cbn [fold_left rev fst snd]. rewrite IH, dict_get_app. cbn [dict_get].
  destruct (dict_get m (rev methods)); [done|].
  rewrite dict_get_set. destruct (decide (k = m)); done.
Qed.

Lemma set_methods_same (methods item : pathitem) :
  (∀ md, md ∈ methods → dict_get md.1 item = Some md.2) →
  fold_left (λ it md, dict_set md.1 md.2 it) methods item = item.
Proof.
  induction methods as [|md methods IH]; intros H; [done|].
  cbn [fold_left]. rewrite dict_set_same by (apply H, list_elem_of_here).
  apply IH. intros md' Hin. by apply H, list_elem_of_further.
Qed.

(** The item the loop leaves under [p]. *)
Lemma add_invoice_paths_get (eps ps : dict pathitem) p :
  dict_wf eps →
  dict_get p (add_invoice_paths eps ps)
  = match dict_get p eps with
    | Some methods =>
        Some (match dict_get p ps with
              | Some item => fold_left (λ it md, dict_set md.1 md.2 it) methods item
              | None => methods
              end)
    | None => dict_get p ps
    end.
Proof.
  unfold add_invoice_paths, dict_wf, keys. revert ps.
  induction eps as [|[p0 methods] eps IH]; intros ps Hnd; [done|].
  rewrite fmap_cons in Hnd. apply NoDup_cons in Hnd as [Hp0 Hnd].
  cbn [fold_left fst snd]. rewrite IH by done. cbn [dict_get].
  destruct (decide (p0 = p)) as [->|Hne].
  - rewrite (proj2 (dict_get_None p eps) Hp0).
    destruct (dict_get p ps); by rewrite dict_get_set_eq.
  - destruct (dict_get p eps); [|destruct (dict_get p0 ps); by rewrite dict_get_set_ne].
    f_equal. by destruct (dict_get p0 ps); rewrite dict_get_set_ne.
Qed.

(** X19. In add_invoice_types_endpoints (lines 613-621) the script's
    operation wins: after the loop, a (path, method) of the script's table
    has the script's operation, whatever the document had there, and every
    other (path, method) is as it was. *)
Theorem invoice_paths_patch_wins (eps ps : dict pathitem) (p m : string) :
  paths_wf eps →
  lookup2 (add_invoice_paths eps ps) p m
  = match lookup2 eps p m with
    | Some v => Some v
    | None => lookup2 ps p m
    end.
Proof.
  intros [Hwf Hitems]. unfold lookup2. rewrite add_invoice_paths_get by done.
  destruct (dict_get p eps) as [methods|] eqn:Hg; [|done]. cbn [mbind option_bind].
  assert (dict_wf methods) as Hm.
  { apply dict_get_Some_elem in Hg. rewrite Forall_forall in Hitems.
    exact (Hitems _ Hg). }
  destruct (dict_get p ps) as [item|]; cbn [mbind option_bind].
  - rewrite set_methods_get, dict_get_rev_wf by done.
    by destruct (dict_get m methods).
  - by destruct (dict_get m methods).
Qed.

Lemma invoice_paths_patch_wins_witness :
  lookup2 (add_invoice_paths patch_A base_settings) "/api/v1/settings" "get"
  = match lookup2 patch_A "/api/v1/settings" "get" with
    | Some v => Some v
    | None => lookup2 base_settings "/api/v1/settings" "get"
    end.
Proof.
  apply (invoice_paths_patch_wins patch_A base_settings).
  split; [compute_done|].
  repeat (first [apply List.Forall_nil | apply List.Forall_cons]); compute_done.
Defined.

Lemma add_invoice_paths_settled (eps acc : dict pathitem) :
  (∀ e, e ∈ eps →
     ∃ item, dict_get e.1 acc = Some item
             ∧ ∀ md, md ∈ e.2 → dict_get md.1 item = Some md.2) →
  add_invoice_paths eps acc = acc.
Proof.
  unfold add_invoice_paths. induction eps as [|e eps IH]; intros H; [done|].
  cbn [fold_left].
  destruct (H e (list_elem_of_here _ _)) as (item & Hg & Hitem).
  rewrite Hg, set_methods_same, dict_set_same by done.
  apply IH. intros e' Hin. by apply H, list_elem_of_further.
Qed.

Lemma add_invoice_paths_again (eps ps : dict pathitem) :
  paths_wf eps →
  add_invoice_paths eps (add_invoice_paths eps ps) = add_invoice_paths eps ps.
Proof.
  intros [Hwf Hitems]. apply add_invoice_paths_settled. intros [p methods] Hin.
  cbn [fst snd]. rewrite add_invoice_paths_get by done.
  rewrite (dict_get_of_elem eps p methods) by done.
  assert (dict_wf methods) as Hm.
  { rewrite Forall_forall in Hitems. exact (Hitems _ Hin). }
  eexists. split; [reflexivity|]. intros [k v] Hmd. cbn [fst snd].
  destruct (dict_get p ps) as [item|].
  - rewrite set_methods_get, dict_get_rev_wf by done.
    by rewrite (dict_get_of_elem methods k v).
  - by apply dict_get_of_elem.
Qed.

Lemma add_definitions_same (new_definitions defs : dict opaque) :
  (∀ e, e ∈ new_definitions → dict_get e.1 defs = Some e.2) →
  add_definitions new_definitions defs = defs.
Proof.
  unfold add_definitions. induction new_definitions as [|e nd IH]; intros H; [done|].
  cbn [fold_left]. rewrite dict_set_same by (apply H, list_elem_of_here).
  apply IH. intros e' Hin. by apply H, list_elem_of_further.
Qed.

Lemma add_definitions_again (new_definitions defs : dict opaque) :
  dict_wf new_definitions →
  add_definitions new_definitions (add_definitions new_definitions defs)
  = add_definitions new_definitions defs.
Proof.
  intros Hwf. apply add_definitions_same. intros [k v] Hin. cbn [fst snd].
  rewrite add_definitions_get_rev, dict_get_rev_wf by done.
  by rewrite (dict_get_of_elem new_definitions k v).
Qed.

Lemma tag_exists_app_tag ts :
  tag_exists ts = Some false → tag_exists (ts ++ [invoice_types_tag]) = Some true.
Proof.
  induction ts as [|[n rest|o] ts IH]; cbn [tag_exists app]; [done| |done].
  destruct (decide (n = Some "Invoice Types")); [done|exact IH].
Qed.

(** X20. add_invoice_types_endpoints (lines 612-640) run on the document it
    has saved saves the same document again: the paths, the definitions and
    the tags it has brought are found as they are. *)
Theorem invoice_types_repeat (eps : dict pathitem) (new_definitions : dict opaque)
    (d d' : document) (n k : nat) :
  paths_wf eps → dict_wf new_definitions →
  add_invoice_types_endpoints_doc eps new_definitions d = Some (d', n, k) →
  add_invoice_types_endpoints_doc eps new_definitions d' = Some (d', n, k).
Proof.
  intros Heps Hdefs. unfold add_invoice_types_endpoints_doc.
  destruct (tag_exists (default [] (doc_tags d))) as [found|] eqn:Ht; [|done].
  intros Heq. injection Heq as <- <- <-. cbn [doc_paths doc_tags doc_definitions
    doc_info doc_rest].
  assert (tag_exists (default [] (if found then doc_tags d
            else (λ ts, ts ++ [invoice_types_tag]) <$> doc_tags d))
          = Some (match doc_tags d with Some _ => true | None => found end)) as ->.
  { destruct found; [by destruct (doc_tags d)|].
    destruct (doc_tags d) as [ts|]; [|done].
    cbn [fmap option_fmap option_map default from_option] in Ht |- *.
    by apply tag_exists_app_tag. }
  do 3 f_equal.
  f_equal.
  - destruct (doc_paths d) as [ps|]; [|done].
    cbn [fmap option_fmap option_map]. by rewrite add_invoice_paths_again.
  - destruct (doc_tags d) as [ts|]; [done|]. by destruct found.
  - destruct (doc_definitions d) as [defs|]; [|done].
    cbn [fmap option_fmap option_map]. by rewrite add_definitions_again.
Qed.

Lemma invoice_types_repeat_witness :
  ∃ d', add_invoice_types_endpoints_doc patch_A defs_new doc_with_defs
        = Some (d', 2, 2)
        ∧ add_invoice_types_endpoints_doc patch_A defs_new d' = Some (d', 2, 2).
Proof.
  eexists. split; [reflexivity|].
  apply (invoice_types_repeat patch_A defs_new doc_with_defs);
    [split; [compute_done|]| compute_done | reflexivity].
  repeat (first [apply List.Forall_nil | apply List.Forall_cons]); compute_done.
Defined.

(** ** Runs of fix_swagger_display.py and verify_swagger.py *)

Lemma backup_path_ne now (file_path : string) :
  file_path +:+ ".backup_fix_display_" +:+ now ≠ file_path.
Proof. apply append_nonempty_ne. done. Qed.

Lemma load_after_backup now swagger_path fs :
  load_json swagger_path (backup_file now swagger_path fs).1
  = load_json swagger_path fs.
Proof.
  unfold backup_file, load_json.
  destruct (fs !! swagger_path) as [c|] eqn:Hc; cbn [fst]; [|by rewrite Hc].
  rewrite lookup_insert_ne by apply backup_path_ne. by rewrite Hc.
Qed.



(** X22. A run of fix_swagger_display that cannot load swagger.json returns
    False and leaves swagger.json as it was; the backup copy has been made
    all the same when the file exists, whatever it holds, and no other file
    is touched. *)
Theorem fix_display_load_failure (now swagger_path : string) (fs : disk) :
  load_json swagger_path fs = None →
  (fix_swagger_display now swagger_path fs).2 = false
  ∧ (fix_swagger_display now swagger_path fs).1 !! swagger_path = fs !! swagger_path
  ∧ (fix_swagger_display now swagger_path fs).1
      !! (swagger_path +:+ ".backup_fix_display_" +:+ now)
    = match fs !! swagger_path with
      | Some c => Some c
      | None => fs !! (swagger_path +:+ ".backup_fix_display_" +:+ now)
      end
  ∧ ∀ f, f ≠ swagger_path +:+ ".backup_fix_display_" +:+ now →
         (fix_swagger_display now swagger_path fs).1 !! f = fs !! f.
Proof.
  intros Hload. unfold fix_swagger_display.
  rewrite load_after_backup, Hload. cbn [fst snd]. unfold backup_file.
  destruct (fs !! swagger_path) as [c|] eqn:Hc; cbn [fst].
  - repeat split.
    + rewrite lookup_insert_ne by apply backup_path_ne. done.
    + by rewrite lookup_insert_eq.
    + intros f Hf. by rewrite lookup_insert_ne.
  - by rewrite Hc.
Qed.

Lemma fix_display_load_failure_witness :
  let fs : disk := {[ "docs/swagger.json" := Unreadable "{ paths: " ]} in
  (fix_swagger_display "20240101_120000" "docs/swagger.json" fs).2 = false
  ∧ (fix_swagger_display "20240101_120000" "docs/swagger.json" fs).1
      !! "docs/swagger.json" = fs !! "docs/swagger.json"
  ∧ (fix_swagger_display "20240101_120000" "docs/swagger.json" fs).1
      !! ("docs/swagger.json" +:+ ".backup_fix_display_" +:+ "20240101_120000")
    = match fs !! "docs/swagger.json" with
      | Some c => Some c
      | None => fs !! ("docs/swagger.json" +:+ ".backup_fix_display_" +:+ "20240101_120000")
      end
  ∧ ∀ f, f ≠ "docs/swagger.json" +:+ ".backup_fix_display_" +:+ "20240101_120000" →
         (fix_swagger_display "20240101_120000" "docs/swagger.json" fs).1 !! f = fs !! f.
Proof.
  cbv zeta. apply (fix_display_load_failure "20240101_120000" "docs/swagger.json").
  reflexivity.
Defined.


